(** * Bunny Bomber: the simulation core of [GameEngine.tsx]

    A shallow embedding of the game engine's state and of its per-frame
    [update], together with the properties its specification states.

    Conventions of the embedding.
    - JavaScript numbers that hold pixel coordinates, speeds and timers are
      rationals ([Q]: every finite double is one); grid indices, counters
      and ranges are integers ([Z]).  [Math.floor] is [Qfloor].
    - The double-precision operations whose results the engine stores, the
      [+], [-], [*], [/] and [Math.hypot] that move the player and the
      enemies and lower the timers, round their results.  They are
      parameters of the model ([FloatOps]), so that nothing proved about a
      position or a timer depends on how the host rounds.  The geometry of
      [isCollision] and [getGridPos] reads these numbers in exact
      arithmetic.
    - [Math.random] is an oracle [nat -> Q] read through a cursor, and
      [Date.now()] an argument of the frame.
    - A computation that would index an array outside its bounds yields
      [None].  (JavaScript throws a TypeError when the row is missing and
      reads [undefined] when only the column is; both are faults here, so a
      result [Some _] also says that no such read took place.)
    - The repository holds two revisions of the engine.  They differ in a
      handful of places, selected below by a [Version]. *)

From Stdlib Require Import ZArith QArith Qround Qabs Lia Lqa String.
From stdpp Require Import base tactics option list.

Local Open Scope Z_scope.

(** ** Constants ([constants.ts]) *)

Definition TILE_SIZE : Q := 48.
Definition GRID_ROWS : Z := 15.
Definition GRID_COLS : Z := 15.
Definition BOMB_TIMER_MS : Q := 3000.
Definition EXPLOSION_DURATION_MS : Q := 600.
Definition HITBOX_SIZE : Q := 30.

(** ** Data model ([types.ts]) *)

Inductive TileType := Empty | HardWall | SoftWall.

Inductive GameStatus := Menu | Playing | Won | Lost.

Inductive Version := RevA | RevB.

#[global] Instance TileType_eq_dec : EqDecision TileType.
Proof. solve_decision. Defined.

#[global] Instance GameStatus_eq_dec : EqDecision GameStatus.
Proof. solve_decision. Defined.

Definition TileType_eqb (a b : TileType) : bool :=
  match a, b with
  | Empty, Empty | HardWall, HardWall | SoftWall, SoftWall => true
  | _, _ => false
  end.

Module Point.
Record t := mk { x : Q; y : Q }.
End Point.

Module Player.
Record t := mk {
  x : Q; y : Q; width : Q; height : Q;
  alive : bool; speed : Q;
  bombCount : Z; maxBombs : Z; blastRadius : Z }.
Definition set_x (p : t) (v : Q) : t :=
  mk v (y p) (width p) (height p) (alive p) (speed p)
     (bombCount p) (maxBombs p) (blastRadius p).
Definition set_y (p : t) (v : Q) : t :=
  mk (x p) v (width p) (height p) (alive p) (speed p)
     (bombCount p) (maxBombs p) (blastRadius p).
Definition set_alive (p : t) (v : bool) : t :=
  mk (x p) (y p) (width p) (height p) v (speed p)
     (bombCount p) (maxBombs p) (blastRadius p).
Definition set_bombCount (p : t) (v : Z) : t :=
  mk (x p) (y p) (width p) (height p) (alive p) (speed p)
     v (maxBombs p) (blastRadius p).
End Player.

Module Enemy.
Record t := mk {
  id : Q; x : Q; y : Q; width : Q; height : Q;
  alive : bool; speed : Q; direction : Point.t; changeDirTimer : Q }.
Definition set_direction (e : t) (d : Point.t) : t :=
  mk (id e) (x e) (y e) (width e) (height e) (alive e) (speed e)
     d (changeDirTimer e).
Definition set_xy (e : t) (nx ny : Q) : t :=
  mk (id e) nx ny (width e) (height e) (alive e) (speed e)
     (direction e) (changeDirTimer e).
End Enemy.

Module Bomb.
Record t := mk {
  id : Z; x : Q; y : Q; timer : Q; range : Z; ownerId : string }.
Definition set_timer (b : t) (v : Q) : t :=
  mk (id b) (x b) (y b) v (range b) (ownerId b).
End Bomb.

(** An explosion particle is a grid cell ([x] the column, [y] the row)
    with a fade coefficient. *)
Module Particle.
Record t := mk { x : Z; y : Z; alpha : Q }.
End Particle.

Module Explosion.
Record t := mk { id : Z; particles : list Particle.t; timer : Q }.
Definition set_timer (e : t) (v : Q) : t := mk (id e) (particles e) v.
End Explosion.

Module Inputs.
Record t := mk {
  ArrowUp : bool; ArrowDown : bool; ArrowLeft : bool; ArrowRight : bool;
  Space : bool }.
Definition clear_Space (i : t) : t :=
  mk (ArrowUp i) (ArrowDown i) (ArrowLeft i) (ArrowRight i) false.
End Inputs.

Abbreviation Grid := (list (list TileType)).

(** The component's state: the React state [gameStatus] (the value the
    frame's closure captured) and the refs. *)
Record World := mkWorld {
  gameStatus : GameStatus;
  mapRef : Grid;
  playerRef : Player.t;
  bombsRef : list Bomb.t;
  explosionsRef : list Explosion.t;
  enemiesRef : list Enemy.t;
  inputsRef : Inputs.t }.

Definition set_map (w : World) (m : Grid) : World :=
  mkWorld (gameStatus w) m (playerRef w) (bombsRef w) (explosionsRef w)
          (enemiesRef w) (inputsRef w).
Definition set_player (w : World) (p : Player.t) : World :=
  mkWorld (gameStatus w) (mapRef w) p (bombsRef w) (explosionsRef w)
          (enemiesRef w) (inputsRef w).
Definition set_bombs (w : World) (bs : list Bomb.t) : World :=
  mkWorld (gameStatus w) (mapRef w) (playerRef w) bs (explosionsRef w)
          (enemiesRef w) (inputsRef w).
Definition set_explosions (w : World) (es : list Explosion.t) : World :=
  mkWorld (gameStatus w) (mapRef w) (playerRef w) (bombsRef w) es
          (enemiesRef w) (inputsRef w).
Definition set_enemies (w : World) (es : list Enemy.t) : World :=
  mkWorld (gameStatus w) (mapRef w) (playerRef w) (bombsRef w)
          (explosionsRef w) es (inputsRef w).
Definition set_inputs (w : World) (i : Inputs.t) : World :=
  mkWorld (gameStatus w) (mapRef w) (playerRef w) (bombsRef w)
          (explosionsRef w) (enemiesRef w) i.
Definition set_status (w : World) (s : GameStatus) : World :=
  mkWorld s (mapRef w) (playerRef w) (bombsRef w) (explosionsRef w)
          (enemiesRef w) (inputsRef w).

(** The arithmetic of the host on doubles: [fadd a b] is what [a + b]
    evaluates to, and so on; [fhypot] is [Math.hypot]. *)
Record FloatOps := mkFloatOps {
  fadd : Q -> Q -> Q;
  fsub : Q -> Q -> Q;
  fmul : Q -> Q -> Q;
  fdiv : Q -> Q -> Q;
  fhypot : Q -> Q -> Q }.

(** ** Helpers *)

Definition Qltb (a b : Q) : bool := negb (Qle_bool b a).
Definition Qneqb (a b : Q) : bool := negb (Qeq_bool a b).

Module Rect.
Record t := mk { x : Q; y : Q; w : Q; h : Q }.
End Rect.

(** [rectIntersect]: the negation of the four separating conditions. *)
Definition rectIntersect (r1 r2 : Rect.t) : bool :=
  negb (Qle_bool (Rect.x r1 + Rect.w r1) (Rect.x r2)
        || Qle_bool (Rect.x r2 + Rect.w r2) (Rect.x r1)
        || Qle_bool (Rect.y r1 + Rect.h r1) (Rect.y r2)
        || Qle_bool (Rect.y r2 + Rect.h r2) (Rect.y r1)).

Module GridPos.
Record t := mk { c : Z; r : Z }.
End GridPos.

Definition getGridPos (x y : Q) : GridPos.t :=
  GridPos.mk (Qfloor (x / TILE_SIZE)) (Qfloor (y / TILE_SIZE)).

(** The guard [r < 0 || r >= GRID_ROWS || c < 0 || c >= GRID_COLS]. *)
Definition outOfGrid (r c : Z) : bool :=
  (r <? 0) || (GRID_ROWS <=? r) || (c <? 0) || (GRID_COLS <=? c).

(** [mapRef.current[r][c]]; any index outside the arrays is a fault. *)
Definition mapAt (m : Grid) (r c : Z) : option TileType :=
  if (r <? 0) || (c <? 0) then None
  else row ← m !! Z.to_nat r; row !! Z.to_nat c.

(** [mapRef.current[r][c] = t]. *)
Definition mapSet (m : Grid) (r c : Z) (t : TileType) : option Grid :=
  if (r <? 0) || (c <? 0) then None
  else row ← m !! Z.to_nat r;
       _ ← row !! Z.to_nat c;
       Some (<[Z.to_nat r := <[Z.to_nat c := t]> row]> m).

(** ** Physics: [isCollision] *)

(** The inner loop [for (c = left; c <= right; c++)] on row [r], started at
    column [c] with [n] iterations left.  [Some true] is the early
    [return true]; [Some false] means the loop ran to its end. *)
Fixpoint scanCols (m : Grid) (r c : Z) (n : nat) : option bool :=
  match n with
  | O => Some false
  | S n' =>
      if outOfGrid r c then Some true
      else t ← mapAt m r c;
           if negb (TileType_eqb t Empty) then Some true
           else scanCols m r (c + 1) n'
  end.

(** The outer loop [for (r = top; r <= bottom; r++)]. *)
Fixpoint scanRows (m : Grid) (r : Z) (n : nat) (left right : Z)
  : option bool :=
  match n with
  | O => Some false
  | S n' =>
      hit ← scanCols m r left (Z.to_nat (right - left + 1));
      if hit : bool then Some true
      else scanRows m (r + 1) n' left right
  end.

Definition bombRect (b : Bomb.t) : Rect.t :=
  Rect.mk (Bomb.x b - TILE_SIZE / 2) (Bomb.y b - TILE_SIZE / 2)
          TILE_SIZE TILE_SIZE.

(** The loop [for (const b of bombsRef.current)]. *)
Fixpoint scanBombs (pRect curRect : Rect.t) (bs : list Bomb.t) : bool :=
  match bs with
  | [] => false
  | b :: bs' =>
      if rectIntersect pRect (bombRect b) then
        if rectIntersect curRect (bombRect b) then scanBombs pRect curRect bs'
        else true
      else scanBombs pRect curRect bs'
  end.

Definition entityRect (cx cy w h : Q) : Rect.t :=
  Rect.mk (cx - w / 2) (cy - h / 2) w h.

Definition cellLeft (p : Rect.t) : Z := Qfloor (Rect.x p / TILE_SIZE).
Definition cellRight (p : Rect.t) : Z :=
  Qfloor ((Rect.x p + Rect.w p - (1 # 100)) / TILE_SIZE).
Definition cellTop (p : Rect.t) : Z := Qfloor (Rect.y p / TILE_SIZE).
Definition cellBottom (p : Rect.t) : Z :=
  Qfloor ((Rect.y p + Rect.h p - (1 # 100)) / TILE_SIZE).

Definition scanWalls (m : Grid) (pRect : Rect.t) : option bool :=
  scanRows m (cellTop pRect)
           (Z.to_nat (cellBottom pRect - cellTop pRect + 1))
           (cellLeft pRect) (cellRight pRect).

Definition isCollision (m : Grid) (bs : list Bomb.t)
    (targetX targetY w h currentX currentY : Q) : option bool :=
  let pRect := entityRect targetX targetY w h in
  let curRect := entityRect currentX currentY w h in
  hit ← scanWalls m pRect;
  if hit : bool then Some true
  else Some (scanBombs pRect curRect bs).

(** ** Round start: [initGame] *)

(** The first branch of the cell test: outer border, or row and column
    both even. *)
Definition forcedHard (r c : Z) : bool :=
  (r =? 0) || (r =? GRID_ROWS - 1) || (c =? 0) || (c =? GRID_COLS - 1)
  || ((Z.rem r 2 =? 0) && (Z.rem c 2 =? 0)).

(** [isSafeZone], as each revision writes it. *)
Definition isSafeZone (v : Version) (r c : Z) : bool :=
  match v with
  | RevA => (r <? 3) && (c <? 3)
  | RevB => ((r =? 1) && (c =? 1)) || ((r =? 1) && (c =? 2))
            || ((r =? 2) && (c =? 1))
  end.

(** One cell; [k] is the cursor into the random oracle.  [Math.random] is
    called only when the cell is neither forced nor safe. *)
Definition genCell (v : Version) (rnd : nat -> Q) (r c : Z) (k : nat)
  : TileType * nat :=
  if forcedHard r c then (HardWall, k)
  else if isSafeZone v r c then (Empty, k)
  else if Qltb (rnd k) (3 # 10) then (SoftWall, S k)
  else (Empty, S k).

Fixpoint genRow (v : Version) (rnd : nat -> Q) (r c : Z) (n : nat) (k : nat)
  : list TileType * nat :=
  match n with
  | O => ([], k)
  | S n' =>
      let '(t, k1) := genCell v rnd r c k in
      let '(row, k2) := genRow v rnd r (c + 1) n' k1 in
      (t :: row, k2)
  end.

Fixpoint genRows (v : Version) (rnd : nat -> Q) (r : Z) (n : nat) (k : nat)
  : Grid * nat :=
  match n with
  | O => ([], k)
  | S n' =>
      let '(row, k1) := genRow v rnd r 0 (Z.to_nat GRID_COLS) k in
      let '(rows, k2) := genRows v rnd (r + 1) n' k1 in
      (row :: rows, k2)
  end.

Definition newMap (v : Version) (rnd : nat -> Q) : Grid * nat :=
  genRows v rnd 0 (Z.to_nat GRID_ROWS) 0%nat.

Definition initialSpeed (v : Version) : Q :=
  match v with RevA => 4 | RevB => 7 # 2 end.

Definition initialEnemyCount (v : Version) : nat :=
  match v with RevA => 4%nat | RevB => 3%nat end.

Definition spawnPlayer (v : Version) : Player.t :=
  Player.mk (TILE_SIZE * (3 # 2)) (TILE_SIZE * (3 # 2))
            HITBOX_SIZE HITBOX_SIZE true (initialSpeed v) 0 3 2.

Definition spawnEnemy (ident : Q) (r c : Z) : Enemy.t :=
  Enemy.mk ident
           (inject_Z c * TILE_SIZE + TILE_SIZE / 2)
           (inject_Z r * TILE_SIZE + TILE_SIZE / 2)
           HITBOX_SIZE HITBOX_SIZE true 2 (Point.mk 1 0) 0.

(** The placement loop [while (enemyCount > 0 ...)].  Revision A has no cap
    on the attempts, so the loop is run on [fuel]; revision B also stops
    after 100 attempts. *)
Fixpoint spawnEnemies (v : Version) (rnd : nat -> Q) (m : Grid)
    (fuel : nat) (enemyCount : nat) (attempts : Z) (k : nat)
    (enemies : list Enemy.t) : option (list Enemy.t * nat) :=
  let continue :=
    match v with
    | RevA => negb (Nat.eqb enemyCount 0)
    | RevB => negb (Nat.eqb enemyCount 0) && (attempts <? 100)
    end in
  if negb continue then Some (enemies, k)
  else
    match fuel with
    | O => None
    | S fuel' =>
        let r := Qfloor (rnd k * inject_Z (GRID_ROWS - 2)) + 1 in
        let c := Qfloor (rnd (S k) * inject_Z (GRID_COLS - 2)) + 1 in
        t ← mapAt m r c;
        if TileType_eqb t Empty && ((4 <? r) || (4 <? c)) then
          spawnEnemies v rnd m fuel' (Nat.pred enemyCount) (attempts + 1)
                       (S (S (S k)))
                       (enemies ++ [spawnEnemy (rnd (S (S k))) r c])
        else
          spawnEnemies v rnd m fuel' enemyCount (attempts + 1)
                       (S (S k)) enemies
    end.

(** [initGame] replaces every ref but the inputs and sets the status to
    [Playing]. *)
Definition initGame (v : Version) (fuel : nat) (rnd : nat -> Q) (w : World)
  : option World :=
  let '(m, k) := newMap v rnd in
  '(enemies, _) ← spawnEnemies v rnd m fuel (initialEnemyCount v) 0 k [];
  Some (mkWorld Playing m (spawnPlayer v) [] [] enemies (inputsRef w)).

(** The state on mount, before the first start. *)
Definition mountWorld (v : Version) : World :=
  mkWorld Menu []
          (Player.mk TILE_SIZE TILE_SIZE HITBOX_SIZE HITBOX_SIZE true
                     (initialSpeed v) 0 3 2)
          [] [] [] (Inputs.mk false false false false false).

(** ** Bombs: [placeBomb] and [explodeBomb] *)

Definition playerName : string := "player".

Definition sameCell (a b : GridPos.t) : bool :=
  (GridPos.r a =? GridPos.r b) && (GridPos.c a =? GridPos.c b).

Definition bombCell (b : Bomb.t) : GridPos.t :=
  getGridPos (Bomb.x b) (Bomb.y b).

Definition placeBomb (now : Z) (w : World) : World :=
  let player := playerRef w in
  if Player.maxBombs player <=? Player.bombCount player then w
  else
    let gridPos := getGridPos (Player.x player) (Player.y player) in
    let bombX :=
      (inject_Z (GridPos.c gridPos) * TILE_SIZE + TILE_SIZE / 2)%Q in
    let bombY :=
      (inject_Z (GridPos.r gridPos) * TILE_SIZE + TILE_SIZE / 2)%Q in
    let exists_ :=
      existsb (fun b => sameCell (bombCell b) gridPos) (bombsRef w) in
    if exists_ then w
    else
      set_player
        (set_bombs w (bombsRef w ++
           [Bomb.mk now bombX bombY BOMB_TIMER_MS
                    (Player.blastRadius player) playerName]))
        (Player.set_bombCount player (Player.bombCount player + 1)).

(** One ray: the loop [for (i = 1; i <= bomb.range; i++)] in direction
    [(dr, dc)], at step [i] with [n] iterations left.  The state is the
    grid and the particle cells pushed so far, each an [(x, y)] pair,
    that is (column, row). *)
Fixpoint rayLoop (center : GridPos.t) (dr dc : Z) (i : Z) (n : nat)
    (m : Grid) (particles : list (Z * Z)) : option (Grid * list (Z * Z)) :=
  match n with
  | O => Some (m, particles)
  | S n' =>
      let r := GridPos.r center + dr * i in
      let c := GridPos.c center + dc * i in
      if outOfGrid r c then Some (m, particles)
      else
        tile ← mapAt m r c;
        if TileType_eqb tile HardWall then Some (m, particles)
        else
          let particles' := particles ++ [(c, r)] in
          if TileType_eqb tile SoftWall then
            m' ← mapSet m r c Empty; Some (m', particles')
          else rayLoop center dr dc (i + 1) n' m particles'
  end.

Definition dirs : list (Z * Z) := [(-1, 0); (1, 0); (0, -1); (0, 1)].

(** [dirs.forEach(d => ...)]. *)
Fixpoint castRays (center : GridPos.t) (range : Z) (ds : list (Z * Z))
    (m : Grid) (particles : list (Z * Z)) : option (Grid * list (Z * Z)) :=
  match ds with
  | [] => Some (m, particles)
  | (dr, dc) :: ds' =>
      '(m', particles') ←
        rayLoop center dr dc 1 (Z.to_nat range) m particles;
      castRays center range ds' m' particles'
  end.

Definition withAlpha (p : Z * Z) : Particle.t :=
  Particle.mk (fst p) (snd p) 1.

(** Revision A decrements the counter for every bomb, revision B only for
    a bomb whose owner is the player. *)
Definition decrementsCount (v : Version) (bomb : Bomb.t) : bool :=
  match v with
  | RevA => true
  | RevB => String.eqb (Bomb.ownerId bomb) playerName
  end.

Definition explodeBomb (v : Version) (now : Z) (bomb : Bomb.t) (index : nat)
    (w : World) : option World :=
  let bombs' := delete index (bombsRef w) in
  let player := playerRef w in
  let player' :=
    if decrementsCount v bomb
    then Player.set_bombCount player (Player.bombCount player - 1)
    else player in
  let center := bombCell bomb in
  '(m', particles) ←
    castRays center (Bomb.range bomb) dirs (mapRef w)
             [(GridPos.c center, GridPos.r center)];
  Some (set_explosions
          (set_map (set_player (set_bombs w bombs') player') m')
          (explosionsRef w ++
             [Explosion.mk now (withAlpha <$> particles)
                           EXPLOSION_DURATION_MS])).

(** ** The frame: [update] *)

(** [for (let i = n - 1; i >= 0; i--) body(i)]. *)
Fixpoint forDown {S : Type} (n : nat) (body : nat -> S -> option S) (s : S)
  : option S :=
  match n with
  | O => Some s
  | S i => s' ← body i s; forDown i body s'
  end.

(** [xs.forEach(x => body(x))] on a state. *)
Fixpoint forEach {A S : Type} (body : A -> S -> option S) (xs : list A)
    (s : S) : option S :=
  match xs with
  | [] => Some s
  | x :: xs' => s' ← body x s; forEach body xs' s'
  end.

(** The desired displacement from the held keys, normalised when both axes
    are active. *)
Definition desiredMove (fp : FloatOps) (inp : Inputs.t) (speed : Q)
  : Q * Q :=
  let dy := 0%Q in
  let dx := 0%Q in
  let dy := if Inputs.ArrowUp inp then fsub fp dy speed else dy in
  let dy := if Inputs.ArrowDown inp then fadd fp dy speed else dy in
  let dx := if Inputs.ArrowLeft inp then fsub fp dx speed else dx in
  let dx := if Inputs.ArrowRight inp then fadd fp dx speed else dx in
  if Qneqb dx 0 && Qneqb dy 0 then
    let len := fhypot fp dx dy in
    (fmul fp (fdiv fp dx len) speed, fmul fp (fdiv fp dy len) speed)
  else (dx, dy).

(** The second branch of the slide is a plain [else] in revision A and
    [else if (offset < 0)] in revision B. *)
Definition slidesBack (v : Version) (offset : Q) : bool :=
  match v with RevA => true | RevB => Qltb offset 0 end.

Definition SNAP_THRESHOLD : Q := 20.

(** The block [if (dx !== 0) { ... }]. *)
Definition moveX (v : Version) (fp : FloatOps) (m : Grid)
    (bs : list Bomb.t) (player : Player.t) (dx : Q) : option Player.t :=
  let x := Player.x player in
  let y := Player.y player in
  let w := Player.width player in
  let h := Player.height player in
  let speed := Player.speed player in
  if Qneqb dx 0 then
    let nextX := fadd fp x dx in
    hit ← isCollision m bs nextX y w h x y;
    if negb hit then Some (Player.set_x player nextX)
    else
      let gridY := Qfloor (y / TILE_SIZE) in
      let centerY := (inject_Z gridY * TILE_SIZE + TILE_SIZE / 2)%Q in
      let offset := fsub fp y centerY in
      if Qltb (Qabs offset) SNAP_THRESHOLD then
        if Qltb 0 offset then
          hit' ← isCollision m bs nextX (fsub fp y speed) w h x y;
          if negb hit' then Some (Player.set_y player (fsub fp y speed))
          else Some player
        else if slidesBack v offset then
          hit' ← isCollision m bs nextX (fadd fp y speed) w h x y;
          if negb hit' then Some (Player.set_y player (fadd fp y speed))
          else Some player
        else Some player
      else Some player
  else Some player.

(** The block [if (dy !== 0) { ... }]. *)
Definition moveY (v : Version) (fp : FloatOps) (m : Grid)
    (bs : list Bomb.t) (player : Player.t) (dy : Q) : option Player.t :=
  let x := Player.x player in
  let y := Player.y player in
  let w := Player.width player in
  let h := Player.height player in
  let speed := Player.speed player in
  if Qneqb dy 0 then
    let nextY := fadd fp y dy in
    hit ← isCollision m bs x nextY w h x y;
    if negb hit then Some (Player.set_y player nextY)
    else
      let gridX := Qfloor (x / TILE_SIZE) in
      let centerX := (inject_Z gridX * TILE_SIZE + TILE_SIZE / 2)%Q in
      let offset := fsub fp x centerX in
      if Qltb (Qabs offset) SNAP_THRESHOLD then
        if Qltb 0 offset then
          hit' ← isCollision m bs (fsub fp x speed) nextY w h x y;
          if negb hit' then Some (Player.set_x player (fsub fp x speed))
          else Some player
        else if slidesBack v offset then
          hit' ← isCollision m bs (fadd fp x speed) nextY w h x y;
          if negb hit' then Some (Player.set_x player (fadd fp x speed))
          else Some player
        else Some player
      else Some player
  else Some player.

(** The player part of the frame: movement on both axes, then the
    single-shot bomb key. *)
Definition playerPhase (v : Version) (fp : FloatOps) (now : Z)
    (w : World) : option World :=
  let player := playerRef w in
  let '(dx, dy) := desiredMove fp (inputsRef w) (Player.speed player) in
  p1 ← moveX v fp (mapRef w) (bombsRef w) player dx;
  p2 ← moveY v fp (mapRef w) (bombsRef w) p1 dy;
  let w1 := set_player w p2 in
  if Inputs.Space (inputsRef w1) then
    Some (set_inputs (placeBomb now w1) (Inputs.clear_Space (inputsRef w1)))
  else Some w1.

(** The body of the bomb loop at index [i]. *)
Definition bombStep (v : Version) (fp : FloatOps) (dt : Q) (now : Z)
    (i : nat) (w : World) : option World :=
  b ← bombsRef w !! i;
  let b' := Bomb.set_timer b (fsub fp (Bomb.timer b) dt) in
  let w1 := set_bombs w (<[i := b']> (bombsRef w)) in
  if Qle_bool (Bomb.timer b') 0 then explodeBomb v now b' i w1
  else Some w1.

Definition bombPhase (v : Version) (fp : FloatOps) (dt : Q) (now : Z)
    (w : World) : option World :=
  forDown (length (bombsRef w)) (bombStep v fp dt now) w.

(** The state of a running frame: the refs and the [setGameStatus] calls
    made so far, oldest first. *)
Abbreviation Frame := (World * list GameStatus)%type.

Definition enemyCell (e : Enemy.t) : GridPos.t :=
  getGridPos (Enemy.x e) (Enemy.y e).

(** The body of the inner enemy loop of the hit test. *)
Definition burnEnemy (p : Particle.t) (ei : nat) (w : World) : option World :=
  e ← enemiesRef w !! ei;
  let eGrid := enemyCell e in
  if (GridPos.r eGrid =? Particle.y p) && (GridPos.c eGrid =? Particle.x p)
  then Some (set_enemies w (delete ei (enemiesRef w)))
  else Some w.

(** The callback of [exp.particles.forEach]. *)
Definition particleHit (p : Particle.t) (f : Frame) : option Frame :=
  let '(w, calls) := f in
  let player := playerRef w in
  let pGrid := getGridPos (Player.x player) (Player.y player) in
  let '(w1, calls1) :=
    if (GridPos.r pGrid =? Particle.y p) && (GridPos.c pGrid =? Particle.x p)
    then (set_player w (Player.set_alive player false), calls ++ [Lost])
    else (w, calls) in
  w2 ← forDown (length (enemiesRef w1)) (burnEnemy p) w1;
  Some (w2, calls1).

(** The body of the explosion loop at index [i]. *)
Definition explosionStep (fp : FloatOps) (dt : Q) (i : nat) (f : Frame)
  : option Frame :=
  let '(w, calls) := f in
  exp ← explosionsRef w !! i;
  let exp' := Explosion.set_timer exp (fsub fp (Explosion.timer exp) dt) in
  if Qle_bool (Explosion.timer exp') 0 then
    Some (set_explosions w (delete i (explosionsRef w)), calls)
  else
    forEach particleHit (Explosion.particles exp')
            (set_explosions w (<[i := exp']> (explosionsRef w)), calls).

Definition explosionPhase (fp : FloatOps) (dt : Q) (f : Frame)
  : option Frame :=
  forDown (length (explosionsRef (fst f))) (explosionStep fp dt) f.

Definition enemyDirs : list Point.t :=
  [Point.mk 0 (-1); Point.mk 0 1; Point.mk (-1) 0; Point.mk 1 0].

(** [dirs[Math.floor(Math.random() * dirs.length)]] on the sample [u]. *)
Definition pickDir (u : Q) : option Point.t :=
  let i := Qfloor (u * 4) in
  if i <? 0 then None else enemyDirs !! Z.to_nat i.

(** The chance of a spontaneous turn per frame. *)
Definition turnChance (v : Version) : Q :=
  match v with RevA => 2 # 100 | RevB => 1 # 100 end.

(** The state of the enemy loop: the enemies already stepped, the player,
    the status calls and the cursor into the random oracle. *)
Record EnemyLoop := mkEnemyLoop {
  stepped : list Enemy.t;
  el_player : Player.t;
  el_calls : list GameStatus;
  el_cursor : nat }.

(** The callback of [enemiesRef.current.forEach]. *)
Definition enemyStep (v : Version) (fp : FloatOps) (rnd : nat -> Q)
    (m : Grid) (bs : list Bomb.t) (enemy : Enemy.t) (s : EnemyLoop)
  : option EnemyLoop :=
  let player := el_player s in
  let dist :=
    fhypot fp (fsub fp (Player.x player) (Enemy.x enemy))
              (fsub fp (Player.y player) (Enemy.y enemy)) in
  let '(player1, calls1) :=
    if Qltb dist (fmul fp TILE_SIZE (7 # 10))
    then (Player.set_alive player false, el_calls s ++ [Lost])
    else (player, el_calls s) in
  let nextX :=
    fadd fp (Enemy.x enemy)
         (fmul fp (Point.x (Enemy.direction enemy)) (Enemy.speed enemy)) in
  let nextY :=
    fadd fp (Enemy.y enemy)
         (fmul fp (Point.y (Enemy.direction enemy)) (Enemy.speed enemy)) in
  let k := el_cursor s in
  hit ← isCollision m bs nextX nextY (Enemy.width enemy) (Enemy.height enemy)
                    (Enemy.x enemy) (Enemy.y enemy);
  '(enemy1, k1) ←
    (if hit : bool
     then d ← pickDir (rnd k); Some (Enemy.set_direction enemy d, S k)
     else Some (Enemy.set_xy enemy nextX nextY, k));
  '(enemy2, k2) ←
    (if Qltb (rnd k1) (turnChance v)
     then d ← pickDir (rnd (S k1));
          Some (Enemy.set_direction enemy1 d, S (S k1))
     else Some (enemy1, S k1));
  Some (mkEnemyLoop (stepped s ++ [enemy2]) player1 calls1 k2).

Definition enemyPhase (v : Version) (fp : FloatOps) (rnd : nat -> Q)
    (f : Frame) : option Frame :=
  let '(w, calls) := f in
  s ← forEach (enemyStep v fp rnd (mapRef w) (bombsRef w)) (enemiesRef w)
              (mkEnemyLoop [] (playerRef w) calls 0%nat);
  Some (set_enemies (set_player w (el_player s)) (stepped s), el_calls s).

Definition isPlaying (s : GameStatus) : bool :=
  match s with Playing => true | _ => false end.

(** [update(dt)]: the refs after the frame and the [setGameStatus] calls it
    made.  [gameStatus w] is the value captured by the closure; it does not
    change while the frame runs. *)
Definition update (v : Version) (fp : FloatOps) (dt : Q) (now : Z)
    (rnd : nat -> Q) (w : World) : option Frame :=
  if negb (isPlaying (gameStatus w)) then Some (w, [])
  else
    w1 ← playerPhase v fp now w;
    w2 ← bombPhase v fp dt now w1;
    f3 ← explosionPhase fp dt (w2, []);
    '(w4, calls) ← enemyPhase v fp rnd f3;
    if Nat.eqb (length (enemiesRef w4)) 0 && isPlaying (gameStatus w)
    then Some (w4, calls ++ [Won])
    else Some (w4, calls).

(** React applies the queued [setGameStatus] calls in order, so the last
    one stands when the next frame's closure is made. *)
Definition commit (f : Frame) : World :=
  set_status (fst f) (List.last (snd f) (gameStatus (fst f))).

(** One animation frame, drawing left out. *)
Definition tick (v : Version) (fp : FloatOps) (dt : Q) (now : Z)
    (rnd : nat -> Q) (w : World) : option World :=
  commit <$> update v fp dt now rnd w.

(** The arguments of one frame. *)
Record FrameArgs := mkFrameArgs {
  fa_dt : Q; fa_now : Z; fa_rnd : nat -> Q }.

(** Several frames in a row. *)
Fixpoint ticks (v : Version) (fp : FloatOps) (args : list FrameArgs)
    (w : World) : option World :=
  match args with
  | [] => Some w
  | a :: args' =>
      w' ← tick v fp (fa_dt a) (fa_now a) (fa_rnd a) w;
      ticks v fp args' w'
  end.

(** The states the component can be in: mounted, after a change of the held
    keys, after a start or restart (the button is shown only outside
    [Playing]), after a frame. *)
Inductive reachable (v : Version) (fp : FloatOps) : World -> Prop :=
| reach_mount : reachable v fp (mountWorld v)
| reach_input w i :
    reachable v fp w -> reachable v fp (set_inputs w i)
| reach_init w fuel rnd w' :
    reachable v fp w ->
    gameStatus w <> Playing ->
    initGame v fuel rnd w = Some w' ->
    reachable v fp w'
| reach_tick w dt now rnd w' :
    reachable v fp w ->
    (0 <= dt)%Q ->
    tick v fp dt now rnd w = Some w' ->
    reachable v fp w'.

(** ** Vocabulary of the properties *)

(** A grid of [GRID_ROWS] rows of [GRID_COLS] tiles. *)
Definition wf_grid (m : Grid) : Prop :=
  length m = Z.to_nat GRID_ROWS /\
  Forall (fun row => length row = Z.to_nat GRID_COLS) m.

Definition inGrid (r c : Z) : Prop :=
  0 <= r < GRID_ROWS /\ 0 <= c < GRID_COLS.

(** The tile of a particle cell [(x, y)], or [None] outside the grid. *)
Definition tileOf (m : Grid) (p : Z * Z) : option TileType :=
  if outOfGrid (snd p) (fst p) then None else mapAt m (snd p) (fst p).

(** The [i]-th cell from [center] in direction [d = (dr, dc)], as the
    [(x, y)] pair a particle carries. *)
Definition rayCell (center : GridPos.t) (d : Z * Z) (i : Z) : Z * Z :=
  (GridPos.c center + snd d * i, GridPos.r center + fst d * i).

(** The first [k] cells of a ray, nearest first. *)
Definition rayCells (center : GridPos.t) (d : Z * Z) (k : nat)
  : list (Z * Z) :=
  (fun i => rayCell center d (Z.of_nat (S i))) <$> seq 0 k.

(** The cells a ray adds when it starts at step [i] and adds [k]. *)
Definition raySegment (center : GridPos.t) (d : Z * Z) (i : Z) (k : nat)
  : list (Z * Z) :=
  (fun j => rayCell center d (i + Z.of_nat j)) <$> seq 0 k.

(** The stop rule of a ray, in the words of the specification: [k] cells
    are added; those before the last are Empty; the last is Empty or a
    SoftWall; and when fewer than [range] cells were added, either the last
    one is a SoftWall or the next one is outside the grid or a HardWall. *)
Record RaySpec (m : Grid) (center : GridPos.t) (d : Z * Z) (range : Z)
    (k : nat) : Prop := mkRaySpec {
  ray_within : Z.of_nat k <= Z.max 0 range;
  ray_open : forall i, 1 <= i < Z.of_nat k ->
    tileOf m (rayCell center d i) = Some Empty;
  ray_last : (0 < k)%nat ->
    tileOf m (rayCell center d (Z.of_nat k)) = Some Empty \/
    tileOf m (rayCell center d (Z.of_nat k)) = Some SoftWall;
  ray_stop : Z.of_nat k < range ->
    ((0 < k)%nat /\
     tileOf m (rayCell center d (Z.of_nat k)) = Some SoftWall) \/
    tileOf m (rayCell center d (Z.of_nat k + 1)) = None \/
    tileOf m (rayCell center d (Z.of_nat k + 1)) = Some HardWall }.

(** The cells the wall scan of [isCollision] covers. *)
Definition covers (p : Rect.t) (r c : Z) : Prop :=
  cellTop p <= r <= cellBottom p /\ cellLeft p <= c <= cellRight p.

(** A bomb blocks a move when the target rectangle overlaps it and the
    current one does not. *)
Definition bombBlocks (pRect curRect : Rect.t) (b : Bomb.t) : Prop :=
  rectIntersect pRect (bombRect b) = true /\
  rectIntersect curRect (bombRect b) = false.

(** The cells the generation treats as the safe zone: those that reach the
    [isSafeZone] test and pass it. *)
Definition safeCell (v : Version) (r c : Z) : bool :=
  negb (forcedHard r c) && isSafeZone v r c.

(** What generation promises about the tile [t] it puts at [(r, c)]. *)
Definition cellOk (v : Version) (r c : Z) (t : TileType) : Prop :=
  (forcedHard r c = true -> t = HardWall) /\
  (safeCell v r c = true -> t = Empty).

(** The bookkeeping of bombs that every reachable state satisfies. *)
Record BombInv (w : World) : Prop := mkBombInv {
  inv_count :
    Player.bombCount (playerRef w) = Z.of_nat (length (bombsRef w));
  inv_max : Player.maxBombs (playerRef w) = 3;
  inv_bound :
    Player.bombCount (playerRef w) <= Player.maxBombs (playerRef w);
  inv_cells : NoDup (bombCell <$> bombsRef w);
  inv_owner : Forall (fun b => Bomb.ownerId b = playerName) (bombsRef w);
  inv_grid : gameStatus w <> Menu -> wf_grid (mapRef w) }.

(** The part of the state the bomb bookkeeping looks at. *)
Definition bombView (w : World)
  : GameStatus * list Bomb.t * Grid * Z * Z :=
  (gameStatus w, bombsRef w, mapRef w,
   Player.bombCount (playerRef w), Player.maxBombs (playerRef w)).

(** What the hit tests and the enemy loop leave alone: everything but the
    explosions, the enemies and the player's [alive] flag. *)
Definition hitView (w : World)
  : GameStatus * list Bomb.t * Grid * Inputs.t * Player.t :=
  (gameStatus w, bombsRef w, mapRef w, inputsRef w,
   Player.set_alive (playerRef w) true).

(** The cell a particle stands for, as the [(x, y)] pair of the rays. *)
Definition particleCell (p : Particle.t) : Z * Z :=
  (Particle.x p, Particle.y p).






(** Samples as [Math.random] gives them: in [0, 1). *)
Definition unitSamples (rnd : nat -> Q) : Prop :=
  forall k, (0 <= rnd k)%Q /\ (rnd k < 1)%Q.

(** ** Vocabulary of the further properties *)

(** A cell that stops movement: outside the grid, or not Empty. *)
Definition solidAt (m : Grid) (r c : Z) : Prop :=
  outOfGrid r c = true \/ exists t, mapAt m r c = Some t /\ t <> Empty.

(** An enemy as the placement loop makes it: at the center of an Empty
    tile of [m] away from the spawn corner. *)
Definition spawnedOn (m : Grid) (e : Enemy.t) : Prop :=
  exists (r c : Z) (ident : Q),
    e = spawnEnemy ident r c /\
    mapAt m r c = Some Empty /\ (4 < r \/ 4 < c).

(** [m'] is [m] after some SoftWalls were cleared: same shape, and every
    tile is what it was, or was a SoftWall and is Empty now. *)
Definition gridAges (m m' : Grid) : Prop :=
  wf_grid m' /\
  forall r c t, mapAt m r c = Some t ->
    mapAt m' r c = Some t \/ (t = SoftWall /\ mapAt m' r c = Some Empty).

(** The maze skeleton of a round: the forced HardWalls stand and the safe
    zone is clear. *)
Record Skeleton (v : Version) (m : Grid) : Prop := mkSkeleton {
  skel_grid : wf_grid m;
  skel_hard : forall r c, inGrid r c -> forcedHard r c = true ->
                          mapAt m r c = Some HardWall;
  skel_safe : forall r c, inGrid r c -> safeCell v r c = true ->
                          mapAt m r c = Some Empty }.

(** A bomb after [timer -= dt]. *)
Definition ageBomb (fp : FloatOps) (dt : Q) (b : Bomb.t) : Bomb.t :=
  Bomb.set_timer b (fsub fp (Bomb.timer b) dt).

(** A bomb the loop keeps: its timer is still above zero. *)
Definition bombLive (b : Bomb.t) : bool := negb (Qle_bool (Bomb.timer b) 0).

(** An explosion after [timer -= dt]. *)
Definition ageExplosion (fp : FloatOps) (dt : Q) (e : Explosion.t)
  : Explosion.t :=
  Explosion.set_timer e (fsub fp (Explosion.timer e) dt).

(** An explosion the loop keeps: its timer is still above zero. *)
Definition explosionLive (e : Explosion.t) : bool :=
  negb (Qle_bool (Explosion.timer e) 0).

(** The status calls of a frame so far: only [Lost], and at least one
    exactly when the player is dead. *)
Definition lostCalls (f : Frame) : Prop :=
  Forall (fun s => s = Lost) (snd f) /\
  (Player.alive (playerRef (fst f)) = false <-> snd f <> []).

(** What the round status says about the entities. *)
Record StatusInv (w : World) : Prop := mkStatusInv {
  st_playing : gameStatus w = Playing -> Player.alive (playerRef w) = true;
  st_lost : gameStatus w = Lost ->
            Player.alive (playerRef w) = false /\ enemiesRef w <> [];
  st_won : gameStatus w = Won -> enemiesRef w = [] }.

(** The comparison of the hit test: particle [p] is on cell [g]. *)
Definition particleAt (p : Particle.t) (g : GridPos.t) : bool :=
  (GridPos.r g =? Particle.y p) && (GridPos.c g =? Particle.x p).

(** Some particle of [ps] is on cell [g]. *)
Definition anyParticleAt (ps : list Particle.t) (g : GridPos.t) : bool :=
  existsb (fun p => particleAt p g) ps.

(** Some particle of some explosion of [exps] is on cell [g]. *)
Definition burning (exps : list Explosion.t) (g : GridPos.t) : bool :=
  existsb (fun e => anyParticleAt (Explosion.particles e) g) exps.

(** The cell the player stands on. *)
Definition playerCell (w : World) : GridPos.t :=
  getGridPos (Player.x (playerRef w)) (Player.y (playerRef w)).

(** The contact test of the enemy loop for a player at [(px, py)]. *)
Definition touches (fp : FloatOps) (px py : Q) (e : Enemy.t) : bool :=
  Qltb (fhypot fp (fsub fp px (Enemy.x e)) (fsub fp py (Enemy.y e)))
       (fmul fp TILE_SIZE (7 # 10)).

(** Every cell the rectangle covers is inside the grid and Empty. *)
Definition rectFree (m : Grid) (rect : Rect.t) : Prop :=
  forall r c, covers rect r c -> inGrid r c /\ mapAt m r c = Some Empty.

(** The hitbox of an enemy, as [isCollision] builds it. *)
Definition enemyRect (e : Enemy.t) : Rect.t :=
  entityRect (Enemy.x e) (Enemy.y e) (Enemy.width e) (Enemy.height e).

(** The hitbox of the player, as [isCollision] builds it. *)
Definition playerRect (p : Player.t) : Rect.t :=
  entityRect (Player.x p) (Player.y p) (Player.width p) (Player.height p).

(** The enemies of [w] cover only Empty cells of the grid of [w]. *)
Definition enemiesFree (w : World) : Prop :=
  Forall (fun e => rectFree (mapRef w) (enemyRect e)) (enemiesRef w).

(** What every enemy of a round keeps: a direction along an axis, the
    spawn speed and the hitbox. *)
Definition enemyOk (e : Enemy.t) : Prop :=
  Enemy.direction e ∈ enemyDirs /\ Enemy.speed e = 2%Q /\
  Enemy.width e = HITBOX_SIZE /\ Enemy.height e = HITBOX_SIZE.

(** ** Concrete data for the examples *)

(** A rational stand-in for [Math.hypot], exact to six decimals. *)
Definition hypotQ (a b : Q) : Q :=
  Z.sqrt (Qfloor ((a * a + b * b) * 1000000000000)) # 1000000.

(** Arithmetic without rounding, with [hypotQ] for [Math.hypot].  The
    sums, differences and products of the examples below are of integers
    of at most four digits, which the doubles do not round either. *)
Definition exactOps : FloatOps := mkFloatOps Qplus Qminus Qmult Qdiv hypotQ.

Definition half (_ : nat) : Q := 1 # 2.

(** The arena [initGame] builds when every sample is one half: no
    SoftWall at all. *)
Definition openArena : Grid := fst (newMap RevA half).


(** The state right after a start in which every sample is one half. *)
Definition arenaWorld : World :=
  default (mountWorld RevA) (initGame RevA 10 half (mountWorld RevA)).

Definition spaceKey : Inputs.t := Inputs.mk false false false false true.

(** One frame later, the bomb key having been held. *)
Definition bombWorld : World :=
  default arenaWorld
          (tick RevA exactOps 16 0 half (set_inputs arenaWorld spaceKey)).




(** A finished round. *)
Definition lostWorld : World := set_status arenaWorld Lost.

(** A bomb on the spawn cell, as [placeBomb] makes it. *)
Definition spawnBomb : Bomb.t := Bomb.mk 0 72 72 BOMB_TIMER_MS 2 playerName.

(** Samples for a start that leaves the arena open and puts every enemy
    on row 1, column 5. *)
Definition rndSpawnRow1 (k : nat) : Q :=
  if (k <? 130)%nat then 1 # 2
  else match ((k - 130) mod 3)%nat with
       | O => 0
       | S O => 1 # 3
       | _ => 1 # 2
       end.

(** Samples that make every enemy turn left. *)
Definition rndTurnLeft (k : nat) : Q := if Nat.even k then 0 else 1 # 2.

Definition doomedStart : World :=
  default (mountWorld RevA)
          (initGame RevA 10 rndSpawnRow1 (mountWorld RevA)).

(** The bomb key in the first frame, then 59 frames of 50 ms. *)
Definition doomedArgs : list FrameArgs :=
  mkFrameArgs 0 0 rndTurnLeft :: repeat (mkFrameArgs 50 0 half) 59.

(** A round in play: the player stands on its own bomb, which has 50 ms
    left, and all four enemies are two cells to its right. *)
Definition doomedWorld : World :=
  default doomedStart
          (ticks RevA exactOps doomedArgs (set_inputs doomedStart spaceKey)).

(** Samples that are all zero: every attempt lands on cell (1, 1). *)
Definition zeroSamples (_ : nat) : Q := 0.

(** * Properties *)

(** ** Arithmetic and list facts *)

Lemma Qltb_lt (a b : Q) : Qltb a b = true <-> (a < b)%Q.
Proof.
  unfold Qltb. rewrite negb_true_iff.
  split; intros H.
  - apply Qnot_le_lt. intros Hle. apply Qle_bool_iff in Hle. congruence.
  - destruct (Qle_bool b a) eqn:E; [|done].
    apply Qle_bool_iff in E. exfalso. eapply Qlt_not_le; eauto.
Qed.

Lemma outOfGrid_false (r c : Z) : outOfGrid r c = false <-> inGrid r c.
Proof. unfold outOfGrid, inGrid, GRID_ROWS, GRID_COLS. lia. Qed.

Lemma mapAt_Some (m : Grid) (r c : Z) :
  wf_grid m -> inGrid r c -> exists t, mapAt m r c = Some t.
Proof.
  intros [Hlen Hrows] [Hr Hc]. unfold mapAt.
  replace ((r <? 0) || (c <? 0)) with false by lia.
  destruct (lookup_lt_is_Some_2 m (Z.to_nat r)) as [row Hrow];
    [unfold GRID_ROWS in *; lia|].
  rewrite Hrow. simpl.
  apply lookup_lt_is_Some_2.
  rewrite Forall_forall in Hrows.
  rewrite (Hrows row); [unfold GRID_COLS in *; lia|].
  eapply list_elem_of_lookup_2; eauto.
Qed.

(** ** C6: a finished round is frozen *)

Lemma set_status_id (w : World) : set_status w (gameStatus w) = w.
Proof. by destruct w. Qed.

Lemma tick_not_playing v fp dt now rnd (w : World) :
  gameStatus w <> Playing -> tick v fp dt now rnd w = Some w.
Proof.
  intros H. unfold tick, update.
  destruct (gameStatus w) eqn:E; try done; simpl;
    unfold commit; simpl; by rewrite E, <- E, set_status_id.
Qed.

(** C6. In a state whose round status is [Lost] or [Won], any number of
    frames, with any delta-times, clocks and random samples, gives the
    state back unchanged: no entity, grid, bomb or explosion is touched
    until [initGame] runs again. *)
Theorem C6_finished_round_is_frozen v fp (args : list FrameArgs)
    (w : World) :
  gameStatus w = Lost \/ gameStatus w = Won ->
  ticks v fp args w = Some w.
Proof.
  intros H. induction args as [|a args IH]; [done|].
  simpl. rewrite tick_not_playing; [done|].
  destruct H as [-> | ->]; done.
Qed.

(** ** C7: bombs and the standing-on exemption *)

Lemma scanBombs_true (pRect curRect : Rect.t) (bs : list Bomb.t) :
  scanBombs pRect curRect bs = true <->
  exists b, b ∈ bs /\ bombBlocks pRect curRect b.
Proof.
  unfold bombBlocks. induction bs as [|b bs IH]; simpl.
  - split; [done|]. intros (b & Hb & _). by apply elem_of_nil in Hb.
  - destruct (rectIntersect pRect (bombRect b)) eqn:Ep;
      [destruct (rectIntersect curRect (bombRect b)) eqn:Ec|].
    + rewrite IH. split; intros (b' & Hb' & H1 & H2).
      * exists b'. split; [by right|done].
      * apply elem_of_cons in Hb' as [-> | Hb']; [congruence|eauto].
    + split; [|done]. intros _. exists b. split; [by left|done].
    + rewrite IH. split; intros (b' & Hb' & H1 & H2).
      * exists b'. split; [by right|done].
      * apply elem_of_cons in Hb' as [-> | Hb']; [congruence|eauto].
Qed.

(** C7. When the wall scan of a blocked-movement check finds nothing, the
    check answers "blocked" exactly when some live bomb's tile-sized
    rectangle overlaps the target rectangle while the entity's current
    rectangle does not overlap that same bomb.  So an entity standing on
    the only bomb in its way is let through, and an entity that does not
    overlap a bomb is stopped by it. *)
Theorem C7_bomb_blocks_unless_standing_on_it (m : Grid) (bs : list Bomb.t)
    (targetX targetY w h currentX currentY : Q) :
  let pRect := entityRect targetX targetY w h in
  let curRect := entityRect currentX currentY w h in
  scanWalls m pRect = Some false ->
  (isCollision m bs targetX targetY w h currentX currentY = Some true <->
   exists b, b ∈ bs /\ bombBlocks pRect curRect b) /\
  (isCollision m bs targetX targetY w h currentX currentY = Some false <->
   forall b, b ∈ bs -> rectIntersect pRect (bombRect b) = true ->
             rectIntersect curRect (bombRect b) = true).
Proof.
  intros pRect curRect Hwalls. unfold isCollision.
  fold pRect curRect. rewrite Hwalls. simpl.
  pose proof (scanBombs_true pRect curRect bs) as Hs.
  split.
  - rewrite <- Hs. split; congruence.
  - destruct (scanBombs pRect curRect bs) eqn:E.
    + split; [done|]. intros Hall.
      destruct (proj1 Hs eq_refl) as (b & Hb & H1 & H2).
      rewrite (Hall b Hb H1) in H2. done.
    + split; [|done]. intros _ b Hb H1.
      destruct (rectIntersect curRect (bombRect b)) eqn:Ec; [done|].
      assert (false = true); [|done].
      apply Hs. exists b. by repeat split.
Qed.

(** ** C8: outside the grid is solid *)

Lemma scanCols_result (m : Grid) (r : Z) (n : nat) (c : Z) :
  wf_grid m ->
  scanCols m r c n = Some true \/
  (scanCols m r c n = Some false /\
   forall j, c <= j < c + Z.of_nat n ->
             inGrid r j /\ mapAt m r j = Some Empty).
Proof.
  intros Hwf. revert c. induction n as [|n IH]; intros c; simpl.
  - right. split; [done|]. lia.
  - destruct (outOfGrid r c) eqn:Eo; [by left|].
    apply outOfGrid_false in Eo.
    destruct (mapAt_Some m r c Hwf Eo) as [t Ht]. rewrite Ht. simpl.
    destruct t; simpl; try by left.
    destruct (IH (c + 1)) as [H | [H Hall]]; [by left|].
    right. split; [done|]. intros j Hj.
    destruct (decide (j = c)) as [-> | Hne]; [done|].
    apply Hall. lia.
Qed.

Lemma scanRows_result (m : Grid) (n : nat) (r left right : Z) :
  wf_grid m ->
  scanRows m r n left right = Some true \/
  (scanRows m r n left right = Some false /\
   forall i j, r <= i < r + Z.of_nat n -> left <= j <= right ->
               inGrid i j /\ mapAt m i j = Some Empty).
Proof.
  intros Hwf. revert r. induction n as [|n IH]; intros r; simpl.
  - right. split; [done|]. lia.
  - destruct (scanCols_result m r (Z.to_nat (right - left + 1)) left Hwf)
      as [-> | [-> Hrow]]; simpl; [by left|].
    destruct (IH (r + 1)) as [H | [H Hall]]; [by left|].
    right. split; [done|]. intros i j Hi Hj.
    destruct (decide (i = r)) as [-> | Hne].
    + apply Hrow. lia.
    + apply Hall; lia.
Qed.

Lemma scanWalls_result (m : Grid) (p : Rect.t) :
  wf_grid m ->
  scanWalls m p = Some true \/
  (scanWalls m p = Some false /\
   forall r c, covers p r c -> inGrid r c /\ mapAt m r c = Some Empty).
Proof.
  intros Hwf. unfold scanWalls.
  destruct (scanRows_result m (Z.to_nat (cellBottom p - cellTop p + 1))
              (cellTop p) (cellLeft p) (cellRight p) Hwf)
    as [H | [H Hall]]; [by left|].
  right. split; [done|]. intros r c [Hr Hc]. apply Hall; lia.
Qed.

(** C8. On a well-formed grid, when some cell covered by the target
    rectangle lies outside [0, GRID_ROWS) x [0, GRID_COLS), the
    blocked-movement check returns [true]; it does so without a fault, so
    no tile is read outside the grid on the way. *)
Theorem C8_outside_the_grid_is_solid (m : Grid) (bs : list Bomb.t)
    (targetX targetY w h currentX currentY : Q) (r c : Z) :
  wf_grid m ->
  covers (entityRect targetX targetY w h) r c ->
  outOfGrid r c = true ->
  isCollision m bs targetX targetY w h currentX currentY = Some true.
Proof.
  intros Hwf Hcov Hout. unfold isCollision.
  destruct (scanWalls_result m (entityRect targetX targetY w h) Hwf)
    as [-> | [_ Hall]]; [done|].
  destruct (Hall r c Hcov) as [Hin _].
  apply outOfGrid_false in Hin. congruence.
Qed.

(** ** C9: the generated grid *)

Lemma genCell_ok v rnd (r c : Z) (k : nat) :
  cellOk v r c (fst (genCell v rnd r c k)).
Proof.
  unfold cellOk, safeCell, genCell.
  destruct (forcedHard r c); simpl; [done|].
  destruct (isSafeZone v r c); simpl; [done|].
  destruct (Qltb _ _); done.
Qed.

Lemma genRow_ok v rnd (r : Z) (n : nat) (c : Z) (k : nat) :
  length (fst (genRow v rnd r c n k)) = n /\
  forall (j : nat) t, fst (genRow v rnd r c n k) !! j = Some t ->
                      cellOk v r (c + Z.of_nat j) t.
Proof.
  revert c k. induction n as [|n IH]; intros c k; simpl.
  - split; [done|]. intros j t Hj. done.
  - pose proof (genCell_ok v rnd r c k) as Hcell.
    destruct (genCell v rnd r c k) as [t0 k1].
    specialize (IH (c + 1) k1).
    destruct (genRow v rnd r (c + 1) n k1) as [row k2]. simpl in *.
    destruct IH as [IHlen IHcells]. split; [simpl; congruence|].
    intros [|j] t Hj; simpl in Hj.
    + injection Hj as <-. by replace (c + Z.of_nat 0) with c by lia.
    + replace (c + Z.of_nat (S j)) with (c + 1 + Z.of_nat j) by lia. by apply IHcells.
Qed.

Lemma genRows_ok v rnd (n : nat) (r : Z) (k : nat) :
  length (fst (genRows v rnd r n k)) = n /\
  forall (i : nat) row, fst (genRows v rnd r n k) !! i = Some row ->
    length row = Z.to_nat GRID_COLS /\
    forall (j : nat) t, row !! j = Some t ->
                        cellOk v (r + Z.of_nat i) (Z.of_nat j) t.
Proof.
  revert r k. induction n as [|n IH]; intros r k; cbn [genRows].
  - split; [done|]. intros i row Hi. done.
  - pose proof (genRow_ok v rnd r (Z.to_nat GRID_COLS) 0 k) as Hrow.
    destruct (genRow v rnd r 0 (Z.to_nat GRID_COLS) k) as [row0 k1].
    specialize (IH (r + 1) k1).
    destruct (genRows v rnd (r + 1) n k1) as [rows k2]. simpl in *.
    destruct IH as [IHlen IHrows]. destruct Hrow as [Hlen Hcells].
    split; [simpl; congruence|].
    intros [|i] row Hi; simpl in Hi.
    + injection Hi as <-. split; [done|]. intros j t Hj.
      replace (r + Z.of_nat 0) with r by lia. by apply Hcells.
    + replace (r + Z.of_nat (S i)) with (r + 1 + Z.of_nat i) by lia. by apply IHrows.
Qed.

Lemma newMap_wf v rnd : wf_grid (fst (newMap v rnd)).
Proof.
  unfold newMap, wf_grid.
  destruct (genRows_ok v rnd (Z.to_nat GRID_ROWS) 0 0%nat) as [Hlen Hrows].
  split; [done|]. apply Forall_forall. intros row Hrow.
  apply list_elem_of_lookup_1 in Hrow as [i Hi].
  by destruct (Hrows i row Hi).
Qed.

Lemma newMap_cell v rnd (r c : Z) (t : TileType) :
  mapAt (fst (newMap v rnd)) r c = Some t -> cellOk v r c t.
Proof.
  unfold mapAt, newMap.
  destruct ((r <? 0) || (c <? 0)) eqn:E; [done|].
  destruct (genRows_ok v rnd (Z.to_nat GRID_ROWS) 0 0%nat) as [_ Hrows].
  destruct (fst (genRows v rnd 0 (Z.to_nat GRID_ROWS) 0) !! Z.to_nat r)
    as [row|] eqn:Hrow; [|done].
  simpl. intros Ht.
  destruct (Hrows _ _ Hrow) as [_ Hcells].
  specialize (Hcells _ _ Ht).
  by replace (0 + Z.of_nat (Z.to_nat r)) with r in Hcells by lia;
     replace (Z.of_nat (Z.to_nat c)) with c in Hcells by lia.
Qed.

Lemma initGame_map v fuel rnd (w w' : World) :
  initGame v fuel rnd w = Some w' ->
  mapRef w' = fst (newMap v rnd) /\ gameStatus w' = Playing /\
  bombsRef w' = [] /\ explosionsRef w' = [] /\
  playerRef w' = spawnPlayer v /\ inputsRef w' = inputsRef w.
Proof.
  unfold initGame. destruct (newMap v rnd) as [m k]. simpl.
  destruct (spawnEnemies _ _ _ _ _ _ _ _) as [[es k']|]; [|done].
  simpl. intros [= <-]. done.
Qed.

Lemma safeCell_cells v (r c : Z) :
  inGrid r c ->
  safeCell v r c = true <->
  (r = 1 /\ c = 1) \/ (r = 1 /\ c = 2) \/ (r = 2 /\ c = 1).
Proof.
  intros [Hr Hc]. split.
  - unfold safeCell. intros H. apply andb_true_iff in H as [H1 H2].
    destruct v.
    + assert (r < 3 /\ c < 3) as [Hr3 Hc3]
        by (unfold isSafeZone in H2; lia).
      assert (r = 0 \/ r = 1 \/ r = 2) as [-> | [-> | ->]] by lia;
        (assert (c = 0 \/ c = 1 \/ c = 2) as [-> | [-> | ->]] by lia);
        auto; done.
    + unfold isSafeZone in H2. lia.
  - intros [[-> ->] | [[-> ->] | [-> ->]]]; by destruct v.
Qed.

(** C9. In every state that [initGame] produces the grid has
    [GRID_ROWS] x [GRID_COLS] tiles; every cell of the outer border and
    every cell whose row and column are both even is a HardWall; and every
    cell of the safe zone next to the spawn, which is the three cells (1,1),
    (1,2) and (2,1) in both revisions, is Empty. *)
Theorem C9_generated_grid v (fuel : nat) (rnd : nat -> Q) (w w' : World) :
  initGame v fuel rnd w = Some w' ->
  wf_grid (mapRef w') /\
  (forall r c, inGrid r c ->
     r = 0 \/ r = GRID_ROWS - 1 \/ c = 0 \/ c = GRID_COLS - 1 \/
     (Z.even r = true /\ Z.even c = true) ->
     mapAt (mapRef w') r c = Some HardWall) /\
  (forall r c, inGrid r c -> safeCell v r c = true ->
     mapAt (mapRef w') r c = Some Empty) /\
  (forall r c, inGrid r c ->
     safeCell v r c = true <->
     (r = 1 /\ c = 1) \/ (r = 1 /\ c = 2) \/ (r = 2 /\ c = 1)).
Proof.
  intros Hinit. apply initGame_map in Hinit as (-> & _).
  pose proof (newMap_wf v rnd) as Hwf.
  split; [done|]. split; [|split].
  - intros r c Hin Hcase.
    destruct (mapAt_Some _ r c Hwf Hin) as [t Ht].
    rewrite Ht. f_equal. apply (newMap_cell _ _ _ _ _ Ht).
    unfold forcedHard.
    destruct Hcase as [-> | [-> | [-> | [-> | [Hr Hc]]]]];
      try (simpl; by rewrite ?orb_true_r).
    assert (Z.rem r 2 = 0 /\ Z.rem c 2 = 0) as [-> ->];
      [|simpl; by rewrite ?orb_true_r].
    destruct Hin as [Hr0 Hc0].
    rewrite !Z.rem_mod_nonneg by lia.
    rewrite Z.even_spec in Hr, Hc.
    destruct Hr as [a ->], Hc as [b ->].
    split; rewrite Z.mul_comm; apply Z_mod_mult.
  - intros r c Hin Hsafe.
    destruct (mapAt_Some _ r c Hwf Hin) as [t Ht].
    rewrite Ht. f_equal. by apply (newMap_cell _ _ _ _ _ Ht).
  - intros r c. apply safeCell_cells.
Qed.

(** ** C1: the rays of an explosion *)

Lemma mapSet_spec (m : Grid) (r c : Z) (t : TileType) :
  wf_grid m -> inGrid r c ->
  exists m', mapSet m r c t = Some m' /\ wf_grid m' /\
             tileOf m' (c, r) = Some t /\
             forall p, p <> (c, r) -> tileOf m' p = tileOf m p.
Proof.
  intros Hwf Hin. pose proof Hwf as [Hlen Hrows].
  pose proof Hin as [Hr Hc].
  destruct (mapAt_Some m r c Hwf Hin) as [t0 Ht0].
  unfold mapSet, mapAt in *.
  replace ((r <? 0) || (c <? 0)) with false in * by lia.
  destruct (m !! Z.to_nat r) as [row|] eqn:Hrow; [|done].
  simpl in *. rewrite Ht0. simpl. eexists. split; [done|].
  assert (Z.to_nat r < length m)%nat as Hrlt
    by (by eapply lookup_lt_Some).
  assert (Z.to_nat c < length row)%nat as Hclt
    by (by eapply lookup_lt_Some).
  split; [|split].
  - split; [by rewrite length_insert|].
    apply Forall_insert; [done|]. rewrite length_insert.
    rewrite Forall_forall in Hrows. apply Hrows.
    by eapply list_elem_of_lookup_2.
  - unfold tileOf, mapAt. simpl.
    apply outOfGrid_false in Hin. rewrite Hin.
    replace ((r <? 0) || (c <? 0)) with false by lia.
    rewrite list_lookup_insert_eq by done. simpl.
    by rewrite list_lookup_insert_eq.
  - intros [c' r'] Hne. unfold tileOf, mapAt. simpl.
    destruct (outOfGrid r' c') eqn:Eo; [done|].
    apply outOfGrid_false in Eo as [Hr' Hc'].
    replace ((r' <? 0) || (c' <? 0)) with false by lia.
    destruct (decide (Z.to_nat r' = Z.to_nat r)) as [Heq | Hner].
    + rewrite Heq, list_lookup_insert_eq, Hrow by done. simpl.
      rewrite list_lookup_insert_ne; [done|].
      intros Hc'eq. apply Hne. f_equal; lia.
    + by rewrite list_lookup_insert_ne.
Qed.

Lemma raySegment_S center d (i : Z) (k : nat) :
  raySegment center d i (S k) =
  rayCell center d i :: raySegment center d (i + 1) k.
Proof.
  unfold raySegment. simpl. rewrite Z.add_0_r. f_equal.
  rewrite <- seq_shift, <- list_fmap_compose.
  apply list_fmap_ext. intros _ j _. simpl. f_equal. lia.
Qed.

Lemma rayCells_segment center d (k : nat) :
  rayCells center d k = raySegment center d 1 k.
Proof.
  unfold rayCells, raySegment. apply list_fmap_ext.
  intros _ j _. f_equal. lia.
Qed.

Lemma elem_of_raySegment center d (i : Z) (k : nat) (p : Z * Z) :
  p ∈ raySegment center d i k <->
  exists j, i <= j < i + Z.of_nat k /\ p = rayCell center d j.
Proof.
  unfold raySegment. rewrite list_elem_of_fmap. split.
  - intros (j & -> & Hj). apply elem_of_seq in Hj.
    exists (i + Z.of_nat j). split; [lia|done].
  - intros (j & Hj & ->). exists (Z.to_nat (j - i)). split.
    + f_equal. lia.
    + apply elem_of_seq. lia.
Qed.

Lemma rayCell_inj center (d d' : Z * Z) (i i' : Z) :
  d ∈ dirs -> d' ∈ dirs -> 1 <= i -> 1 <= i' ->
  rayCell center d i = rayCell center d' i' -> d = d' /\ i = i'.
Proof.
  unfold dirs, rayCell. intros Hd Hd' Hi Hi' Heq.
  repeat (apply elem_of_cons in Hd as [-> | Hd]);
    [| | | |by apply elem_of_nil in Hd];
    (repeat (apply elem_of_cons in Hd' as [-> | Hd']);
       [| | | |by apply elem_of_nil in Hd']);
    simpl in Heq; apply pair_equal_spec in Heq as [H1 H2];
    (split; [first [reflexivity | exfalso; lia] | lia]).
Qed.

Lemma rayCell_not_center center (d : Z * Z) (i : Z) :
  d ∈ dirs -> 1 <= i ->
  rayCell center d i <> (GridPos.c center, GridPos.r center).
Proof.
  unfold dirs, rayCell. intros Hd Hi Heq.
  repeat (apply elem_of_cons in Hd as [-> | Hd]);
    [| | | |by apply elem_of_nil in Hd];
    simpl in Heq; apply pair_equal_spec in Heq as [H1 H2]; lia.
Qed.

(** One ray, started at step [i] with [n] iterations left: it adds [k]
    cells and stops by the rule of [RaySpec]; the cells it added are Empty
    afterwards and no other tile changes. *)
Lemma rayLoop_spec (center : GridPos.t) (d : Z * Z) (n : nat) :
  forall (i : Z) (m : Grid) (ps : list (Z * Z)),
  wf_grid m ->
  exists (k : nat) (m' : Grid),
    rayLoop center (fst d) (snd d) i n m ps
      = Some (m', ps ++ raySegment center d i k) /\
    (k <= n)%nat /\
    (forall j, i <= j < i + Z.of_nat k - 1 ->
               tileOf m (rayCell center d j) = Some Empty) /\
    ((0 < k)%nat ->
     tileOf m (rayCell center d (i + Z.of_nat k - 1)) = Some Empty \/
     tileOf m (rayCell center d (i + Z.of_nat k - 1)) = Some SoftWall) /\
    ((k < n)%nat ->
     ((0 < k)%nat /\
      tileOf m (rayCell center d (i + Z.of_nat k - 1)) = Some SoftWall) \/
     tileOf m (rayCell center d (i + Z.of_nat k)) = None \/
     tileOf m (rayCell center d (i + Z.of_nat k)) = Some HardWall) /\
    wf_grid m' /\
    (forall p, p ∈ raySegment center d i k -> tileOf m' p = Some Empty) /\
    (forall p, p ∉ raySegment center d i k -> tileOf m' p = tileOf m p).
Proof.
  induction n as [|n IH]; intros i m ps Hwf.
  - exists 0%nat, m. simpl. rewrite app_nil_r.
    split_and!; try done; try lia.
    intros p Hp. by apply elem_of_nil in Hp.
  - cbn [rayLoop].
    set (r := GridPos.r center + fst d * i).
    set (c := GridPos.c center + snd d * i).
    assert (rayCell center d i = (c, r)) as Hcell by done.
    assert (tileOf m (c, r) =
            if outOfGrid r c then None else mapAt m r c) as Htile by done.
    destruct (outOfGrid r c) eqn:Eo.
    { exists 0%nat, m. simpl. rewrite app_nil_r, Z.add_0_r, Hcell.
      split_and!; try done; try lia; auto.
      intros p Hp. by apply elem_of_nil in Hp. }
    pose proof Eo as Hin. apply outOfGrid_false in Hin.
    destruct (mapAt_Some m r c Hwf Hin) as [t Ht]. rewrite Ht in *.
    cbn [mbind option_bind].
    destruct t; cbn [TileType_eqb].
    + (* Empty: the ray goes on *)
      destruct (IH (i + 1) m (ps ++ [(c, r)]) Hwf)
        as (k & m' & Hrun & Hk & Hopen & Hlast & Hstop & Hwf' & G1 & G2).
      exists (S k), m'. rewrite raySegment_S, Hcell.
      split; [by rewrite Hrun, <- app_assoc|].
      split; [lia|].
      split.
      { intros j Hj. destruct (decide (j = i)) as [-> | Hne].
        - by rewrite Hcell.
        - apply Hopen. lia. }
      split.
      { intros _. destruct k as [|k].
        - left. replace (i + Z.of_nat 1 - 1) with i by lia.
          by rewrite Hcell.
        - replace (i + Z.of_nat (S (S k)) - 1)
            with (i + 1 + Z.of_nat (S k) - 1) by lia.
          apply Hlast. lia. }
      split.
      { intros Hlt. replace (i + Z.of_nat (S k)) with (i + 1 + Z.of_nat k)
          by lia.
        destruct (Hstop ltac:(lia)) as [[Hk0 Hs] | Hs]; [|by right].
        left. split; [lia|done]. }
      split; [done|]. split.
      * intros p Hp.
        destruct (decide (p ∈ raySegment center d (i + 1) k)) as [Hs|Hs];
          [by apply G1|].
        apply elem_of_cons in Hp as [-> | Hp]; [|done].
        by rewrite G2.
      * intros p Hp. apply G2. intros Hs. apply Hp. by right.
    + (* HardWall: stop, nothing added *)
      exists 0%nat, m. simpl. rewrite app_nil_r, Z.add_0_r, Hcell.
      split_and!; try done; try lia; auto.
      intros p Hp. by apply elem_of_nil in Hp.
    + (* SoftWall: added, cleared, stop *)
      destruct (mapSet_spec m r c Empty Hwf Hin)
        as (m' & Hset & Hwf' & Hnew & Hold).
      rewrite Hset. cbn [mbind option_bind].
      exists 1%nat, m'. rewrite raySegment_S, Hcell.
      replace (i + Z.of_nat 1 - 1) with i by lia. rewrite Hcell.
      split; [done|]. split; [lia|].
      split; [intros j Hj; lia|].
      split; [by right|]. split; [left; split; [lia|done]|].
      split; [done|]. split.
      * intros p Hp. apply elem_of_cons in Hp as [-> | Hp]; [done|].
        by apply elem_of_nil in Hp.
      * intros p Hp. apply Hold. intros ->. apply Hp. by left.
Qed.

Lemma rayLoop_RaySpec (center : GridPos.t) (d : Z * Z) (range : Z)
    (m0 m : Grid) (ps : list (Z * Z)) :
  wf_grid m ->
  (forall i, 1 <= i ->
     tileOf m (rayCell center d i) = tileOf m0 (rayCell center d i)) ->
  exists (k : nat) (m' : Grid),
    rayLoop center (fst d) (snd d) 1 (Z.to_nat range) m ps
      = Some (m', ps ++ rayCells center d k) /\
    RaySpec m0 center d range k /\
    wf_grid m' /\
    (forall p, p ∈ rayCells center d k -> tileOf m' p = Some Empty) /\
    (forall p, p ∉ rayCells center d k -> tileOf m' p = tileOf m p).
Proof.
  intros Hwf Hagree.
  destruct (rayLoop_spec center d (Z.to_nat range) 1 m ps Hwf)
    as (k & m' & Hrun & Hk & Hopen & Hlast & Hstop & Hwf' & G1 & G2).
  exists k, m'. rewrite rayCells_segment.
  split; [done|]. split; [|done].
  replace (1 + Z.of_nat k - 1) with (Z.of_nat k) in * by lia.
  replace (1 + Z.of_nat k) with (Z.of_nat k + 1) in * by lia.
  constructor.
  - lia.
  - intros i Hi. rewrite <- Hagree by lia. apply Hopen. lia.
  - intros Hk0. rewrite <- Hagree by lia. by apply Hlast.
  - intros Hlt.
    destruct (Hstop ltac:(lia)) as [[Hk0 Hs] | [Hs | Hs]].
    + left. split; [done|]. by rewrite <- Hagree by lia.
    + right. left. by rewrite <- Hagree by lia.
    + right. right. by rewrite <- Hagree by lia.
Qed.

(** All the rays of one detonation, against the grid [m0] the detonation
    started from. *)
Lemma castRays_spec (center : GridPos.t) (range : Z) (m0 : Grid) :
  forall (ds : list (Z * Z)) (m : Grid) (ps : list (Z * Z)),
  wf_grid m -> NoDup ds -> (forall d, d ∈ ds -> d ∈ dirs) ->
  (forall d i, d ∈ ds -> 1 <= i ->
     tileOf m (rayCell center d i) = tileOf m0 (rayCell center d i)) ->
  exists (ks : list nat) (m' : Grid),
    castRays center range ds m ps
      = Some (m', ps ++ concat (zip_with (rayCells center) ds ks)) /\
    Forall2 (fun d k => RaySpec m0 center d range k) ds ks /\
    wf_grid m' /\
    (forall p, p ∈ concat (zip_with (rayCells center) ds ks) ->
               tileOf m' p = Some Empty) /\
    (forall p, p ∉ concat (zip_with (rayCells center) ds ks) ->
               tileOf m' p = tileOf m p).
Proof.
  induction ds as [|d ds IH]; intros m ps Hwf Hnd Hdirs Hagree.
  - exists [], m. simpl. rewrite app_nil_r. split_and!; try done.
    intros p Hp. by apply elem_of_nil in Hp.
  - apply NoDup_cons in Hnd as [Hd Hnd].
    destruct (rayLoop_RaySpec center d range m0 m ps Hwf)
      as (k & m1 & Hrun & Hspec & Hwf1 & G1 & G2).
    { intros i Hi. apply Hagree; [by left|done]. }
    destruct (IH m1 (ps ++ rayCells center d k) Hwf1 Hnd)
      as (ks & m' & Hrest & Hspecs & Hwf' & G1' & G2').
    { intros d' Hd'. apply Hdirs. by right. }
    { intros d' i Hd' Hi. rewrite G2; [apply Hagree; [by right|done]|].
      rewrite rayCells_segment, elem_of_raySegment.
      intros (j & Hj & Heq).
      apply rayCell_inj in Heq as [-> _]; try lia; try done.
      - apply Hdirs. by right.
      - apply Hdirs. by left. }
    exists (k :: ks), m'. destruct d as [dr dc]. cbn [castRays].
    simpl in Hrun. rewrite Hrun. cbn [mbind option_bind].
    rewrite Hrest. cbn [zip_with concat]. rewrite <- app_assoc.
    split_and!; try done.
    + by constructor.
    + intros p Hp.
      destruct (decide (p ∈ concat (zip_with (rayCells center) ds ks)))
        as [Hs | Hs]; [by apply G1'|].
      apply elem_of_app in Hp as [Hp | Hp]; [|done].
      rewrite G2' by done. by apply G1.
    + intros p Hp. rewrite G2', G2; [done| |];
        intros Hs; apply Hp; apply elem_of_app; auto.
Qed.

Lemma elem_of_rayCells center d (k : nat) (p : Z * Z) :
  p ∈ rayCells center d k <->
  exists i, 1 <= i <= Z.of_nat k /\ p = rayCell center d i.
Proof.
  rewrite rayCells_segment, elem_of_raySegment.
  split; intros (i & Hi & ->); exists i; (split; [lia|done]).
Qed.

Lemma rayCells_NoDup center d (k : nat) :
  d ∈ dirs -> NoDup (rayCells center d k).
Proof.
  intros Hd. unfold rayCells. apply NoDup_fmap_2_strong; [|apply NoDup_seq].
  intros i j _ _ Heq.
  apply rayCell_inj in Heq as [_ Heq]; try done; lia.
Qed.

Lemma rayCells_disjoint center d d' (k k' : nat) (p : Z * Z) :
  d ∈ dirs -> d' ∈ dirs -> d <> d' ->
  p ∈ rayCells center d k -> p ∉ rayCells center d' k'.
Proof.
  intros Hd Hd' Hne Hp Hp'.
  apply elem_of_rayCells in Hp as (i & Hi & ->).
  apply elem_of_rayCells in Hp' as (i' & Hi' & Heq).
  apply rayCell_inj in Heq as [Heq _]; try done; lia.
Qed.

Lemma center_not_in_ray center d (k : nat) :
  d ∈ dirs ->
  (GridPos.c center, GridPos.r center) ∉ rayCells center d k.
Proof.
  intros Hd Hp. apply elem_of_rayCells in Hp as (i & Hi & Heq).
  symmetry in Heq. by apply rayCell_not_center in Heq; [|done|lia].
Qed.

(** A ray holds no cell beyond a wall that lies on any ray. *)
Lemma no_cell_beyond_wall (m : Grid) center d d' (range : Z) (k : nat)
    (j i : Z) :
  RaySpec m center d range k -> d ∈ dirs -> d' ∈ dirs -> 1 <= j < i ->
  tileOf m (rayCell center d' j) = Some SoftWall \/
  tileOf m (rayCell center d' j) = Some HardWall ->
  rayCell center d' i ∉ rayCells center d k.
Proof.
  intros Hspec Hd Hd' Hji Hwall Hp.
  apply elem_of_rayCells in Hp as (i' & Hi' & Heq).
  apply rayCell_inj in Heq as [-> ->]; try done; try lia.
  rewrite (ray_open _ _ _ _ _ Hspec j) in Hwall by lia.
  by destruct Hwall.
Qed.

Lemma dirs_NoDup : NoDup dirs.
Proof. by apply (bool_decide_unpack _). Qed.

(** The cells of the particles [explodeBomb] stores are the cells its rays
    collected. *)
Lemma stored_cells (cells : list (Z * Z)) :
  particleCell <$> (withAlpha <$> cells) = cells.
Proof.
  rewrite <- list_fmap_compose. rewrite <- (list_fmap_id cells) at 2.
  apply list_fmap_ext. by intros _ [x y] _.
Qed.

(** C1.  A detonation on a well-formed grid succeeds and pushes one
    explosion, stamped [now] and lasting [EXPLOSION_DURATION_MS].  The
    cells of the particles it stores, read off their [x] and [y], are the
    bomb's center cell, once, followed by the cells of the up, down, left
    and right rays, each listed outward from the center; every particle
    starts at [alpha = 1].  Each ray obeys the stop rule [RaySpec] on the
    grid as it was before the detonation: it adds Empty cells, up to
    [range] of them; it stops without adding the cell when that cell is
    outside the grid or a HardWall; and a SoftWall is added and ends the
    ray.  No cell is stored twice.  After the detonation every ray cell is
    Empty (so a SoftWall that was hit is cleared) and no other tile has
    changed.  Hence no stored particle lies beyond the first SoftWall or
    HardWall along a ray. *)
Theorem C1_explosion_rays v (now : Z) (bomb : Bomb.t) (index : nat)
    (w : World) :
  wf_grid (mapRef w) ->
  let center := bombCell bomb in
  let range := Bomb.range bomb in
  let m := mapRef w in
  exists (kU kD kL kR : nat) (w' : World) (e : Explosion.t),
    let rays :=
      rayCells center (-1, 0) kU ++ rayCells center (1, 0) kD ++
      rayCells center (0, -1) kL ++ rayCells center (0, 1) kR in
    let cells := (GridPos.c center, GridPos.r center) :: rays in
    explodeBomb v now bomb index w = Some w' /\
    explosionsRef w' = explosionsRef w ++ [e] /\
    Explosion.id e = now /\
    Explosion.timer e = EXPLOSION_DURATION_MS /\
    particleCell <$> Explosion.particles e = cells /\
    Forall (fun p => Particle.alpha p = 1%Q) (Explosion.particles e) /\
    RaySpec m center (-1, 0) range kU /\
    RaySpec m center (1, 0) range kD /\
    RaySpec m center (0, -1) range kL /\
    RaySpec m center (0, 1) range kR /\
    NoDup (particleCell <$> Explosion.particles e) /\
    wf_grid (mapRef w') /\
    (forall p, p ∈ rays -> tileOf (mapRef w') p = Some Empty) /\
    (forall p, p ∉ rays -> tileOf (mapRef w') p = tileOf m p) /\
    (forall d j i, d ∈ dirs -> 1 <= j < i ->
       tileOf m (rayCell center d j) = Some SoftWall \/
       tileOf m (rayCell center d j) = Some HardWall ->
       forall p, p ∈ Explosion.particles e ->
         particleCell p <> rayCell center d i).
Proof.
  intros Hwf center range m.
  destruct (castRays_spec center range m dirs m
              [(GridPos.c center, GridPos.r center)] Hwf dirs_NoDup)
    as (ks & m' & Hrun & Hspecs & Hwf' & G1 & G2); [done|done|].
  unfold dirs in Hspecs.
  apply Forall2_cons_inv_l in Hspecs as (kU & ks1 & HU & Hspecs & ->).
  apply Forall2_cons_inv_l in Hspecs as (kD & ks2 & HD & Hspecs & ->).
  apply Forall2_cons_inv_l in Hspecs as (kL & ks3 & HL & Hspecs & ->).
  apply Forall2_cons_inv_l in Hspecs as (kR & ks4 & HR & Hspecs & ->).
  apply Forall2_nil_inv_l in Hspecs as ->.
  unfold dirs in Hrun, G1, G2. cbn [zip_with concat] in Hrun, G1, G2.
  rewrite app_nil_r in Hrun, G1, G2.
  assert ((-1, 0) ∈ dirs /\ (1, 0) ∈ dirs /\ (0, -1) ∈ dirs /\ (0, 1) ∈ dirs)
    as (DU & DD & DL & DR)
    by (unfold dirs; rewrite !elem_of_cons; auto 10).
  set (rays := rayCells center (-1, 0) kU ++ rayCells center (1, 0) kD ++
               rayCells center (0, -1) kL ++ rayCells center (0, 1) kR)
    in *.
  set (cells := (GridPos.c center, GridPos.r center) :: rays) in *.
  assert (NoDup cells) as Hnd.
  { apply NoDup_cons. split.
    - unfold rays. rewrite !elem_of_app.
      intros [H | [H | [H | H]]]; revert H; by apply center_not_in_ray.
    - unfold rays. repeat (apply NoDup_app; split_and!);
        try (by apply rayCells_NoDup).
      + intros p Hp. rewrite !elem_of_app.
        intros [H | [H | H]]; revert H;
          by eapply rayCells_disjoint; [| | |exact Hp].
      + intros p Hp. rewrite !elem_of_app.
        intros [H | H]; revert H;
          by eapply rayCells_disjoint; [| | |exact Hp].
      + intros p Hp.
        by eapply rayCells_disjoint; [| | |exact Hp]. }
  exists kU, kD, kL, kR.
  eexists. eexists. cbn zeta.
  split.
  { unfold explodeBomb. fold center range m. unfold dirs at 1.
    rewrite Hrun. cbn [mbind option_bind]. reflexivity. }
  cbn [explosionsRef mapRef set_explosions set_map set_player set_bombs].
  split; [reflexivity|].
  cbn [Explosion.id Explosion.timer Explosion.particles].
  rewrite stored_cells.
  split_and!; try done.
  - (* every particle starts opaque *)
    apply Forall_fmap, Forall_true. done.
  - (* nothing beyond a wall *)
    intros d j i Hd Hji Hwall p Hp Hcell.
    assert (rayCell center d i ∈ cells) as Hin.
    { rewrite <- Hcell, <- (stored_cells cells).
      by apply list_elem_of_fmap_2. }
    apply elem_of_cons in Hin as [Hin | Hin].
    + by apply rayCell_not_center in Hin; [|done|lia].
    + unfold rays in Hin. rewrite !elem_of_app in Hin.
      destruct Hin as [H | [H | [H | H]]]; revert H;
        by eapply no_cell_beyond_wall.
Qed.

(** ** The bomb bookkeeping is an invariant (C4, C5, C10) *)

Lemma forDown_invariant {S : Type} (P : S -> Prop)
    (body : nat -> S -> option S) (n : nat) (s s' : S) :
  (forall i s s', P s -> body i s = Some s' -> P s') ->
  P s -> forDown n body s = Some s' -> P s'.
Proof.
  intros Hbody. revert s. induction n as [|n IH]; intros s Hs; simpl.
  - by intros [= <-].
  - destruct (body n s) as [s1|] eqn:E; [|done]. simpl.
    apply IH. by eapply Hbody.
Qed.

Lemma forEach_invariant {A S : Type} (P : S -> Prop)
    (body : A -> S -> option S) (xs : list A) (s s' : S) :
  (forall x s s', P s -> body x s = Some s' -> P s') ->
  P s -> forEach body xs s = Some s' -> P s'.
Proof.
  intros Hbody. revert s. induction xs as [|x xs IH]; intros s Hs; simpl.
  - by intros [= <-].
  - destruct (body x s) as [s1|] eqn:E; [|done]. simpl.
    apply IH. by eapply Hbody.
Qed.

Lemma BombInv_view (w w' : World) :
  bombView w' = bombView w -> BombInv w -> BombInv w'.
Proof.
  unfold bombView. intros [= Hs Hb Hm Hc Hx] [H1 H2 Hbd H3 H4 H5].
  constructor; rewrite ?Hs, ?Hb, ?Hm, ?Hc, ?Hx; done.
Qed.

Lemma Qfloor_unique (x : Q) (z : Z) :
  (inject_Z z <= x)%Q -> (x < inject_Z (z + 1))%Q -> Qfloor x = z.
Proof.
  intros Hle Hlt.
  assert (z <= Qfloor x).
  { rewrite <- (Qfloor_Z z). by apply Qfloor_resp_le. }
  assert (Qfloor x < z + 1); [|lia].
  rewrite Zlt_Qlt. eapply Qle_lt_trans; [apply Qfloor_le|done].
Qed.

Lemma Qfloor_tile_center (c : Z) :
  Qfloor ((inject_Z c * TILE_SIZE + TILE_SIZE / 2) / TILE_SIZE) = c.
Proof.
  apply Qfloor_unique; unfold Qle, Qlt, TILE_SIZE; simpl; lia.
Qed.

Lemma sameCell_eq (a b : GridPos.t) : sameCell a b = true <-> a = b.
Proof.
  unfold sameCell. destruct a as [ca ra], b as [cb rb]. simpl.
  rewrite andb_true_iff, !Z.eqb_eq. split; [intros [-> ->]; done|].
  by intros [= -> ->].
Qed.

Lemma placeBomb_cases (now : Z) (w : World) :
  placeBomb now w = w \/
  (Player.bombCount (playerRef w) < Player.maxBombs (playerRef w) /\
   exists b,
     bombCell b = getGridPos (Player.x (playerRef w)) (Player.y (playerRef w))
     /\ (bombCell b ∉ (bombCell <$> bombsRef w))
     /\ Bomb.ownerId b = playerName /\ Bomb.timer b = BOMB_TIMER_MS
     /\ placeBomb now w =
        set_player (set_bombs w (bombsRef w ++ [b]))
          (Player.set_bombCount (playerRef w)
             (Player.bombCount (playerRef w) + 1))).
Proof.
  unfold placeBomb.
  destruct (Player.maxBombs _ <=? Player.bombCount _) eqn:Emax; [by left|].
  destruct (existsb _ _) eqn:Eex; [by left|].
  right. split; [lia|].
  set (gridPos := getGridPos (Player.x (playerRef w))
                             (Player.y (playerRef w))) in *.
  set (b := Bomb.mk _ _ _ _ _ _).
  assert (bombCell b = gridPos) as Hcell.
  { unfold bombCell, getGridPos, b. cbn [Bomb.x Bomb.y].
    rewrite !Qfloor_tile_center. by destruct gridPos. }
  exists b. split_and!; try done.
  intros Hin. apply list_elem_of_fmap in Hin as (b0 & Hb0 & Hin).
  assert (existsb (fun b => sameCell (bombCell b) gridPos) (bombsRef w)
          = true); [|congruence].
  apply existsb_exists. exists b0. split; [by apply list_elem_of_In|].
  apply sameCell_eq. congruence.
Qed.

Lemma placeBomb_inv (now : Z) (w : World) :
  BombInv w -> BombInv (placeBomb now w).
Proof.
  intros Hinv.
  destruct (placeBomb_cases now w)
    as [-> | (Hlt & b & Hcell & Hnew & Hown & _ & ->)]; [done|].
  destruct Hinv as [H1 H2 Hbd H3 H4 H5].
  constructor; simpl.
  - rewrite length_app, H1. simpl. lia.
  - done.
  - lia.
  - rewrite fmap_app. simpl. apply NoDup_app. split_and!; [done| |].
    + intros c Hc Hc'. apply list_elem_of_singleton in Hc'. by subst.
    + apply NoDup_singleton.
  - apply Forall_app. split; [done|]. by constructor.
  - done.
Qed.

Lemma moveX_counts v fp (m : Grid) (bs : list Bomb.t) (p p' : Player.t)
    (dx : Q) :
  moveX v fp m bs p dx = Some p' ->
  Player.bombCount p' = Player.bombCount p /\
  Player.maxBombs p' = Player.maxBombs p.
Proof.
  unfold moveX. intros H.
  repeat (case_match; simplify_option_eq); done.
Qed.

Lemma moveY_counts v fp (m : Grid) (bs : list Bomb.t) (p p' : Player.t)
    (dy : Q) :
  moveY v fp m bs p dy = Some p' ->
  Player.bombCount p' = Player.bombCount p /\
  Player.maxBombs p' = Player.maxBombs p.
Proof.
  unfold moveY. intros H.
  repeat (case_match; simplify_option_eq); done.
Qed.

Lemma playerPhase_inv v fp (now : Z) (w w' : World) :
  playerPhase v fp now w = Some w' ->
  BombInv w -> BombInv w' /\ gameStatus w' = gameStatus w.
Proof.
  unfold playerPhase. intros H Hinv.
  destruct (desiredMove _ _ _) as [dx dy].
  destruct (moveX _ _ _ _ _ _) as [p1|] eqn:E1; [|done].
  cbn [mbind option_bind] in H.
  destruct (moveY _ _ _ _ _ _) as [p2|] eqn:E2; [|done].
  cbn [mbind option_bind] in H.
  apply moveX_counts in E1 as [Hc1 Hm1].
  apply moveY_counts in E2 as [Hc2 Hm2].
  assert (BombInv (set_player w p2)) as Hinv1.
  { eapply BombInv_view; [|exact Hinv].
    unfold bombView. simpl. congruence. }
  destruct (Inputs.Space _); injection H as <-; [|done].
  split.
  - eapply BombInv_view; [|apply (placeBomb_inv now _ Hinv1)].
    done.
  - destruct (placeBomb_cases now (set_player w p2))
      as [-> | (_ & b & _ & _ & _ & _ & ->)]; done.
Qed.

(** What [explodeBomb] does to each ref. *)
Lemma explodeBomb_run v (now : Z) (bomb : Bomb.t) (index : nat) (w : World) :
  wf_grid (mapRef w) ->
  exists w' e,
    explodeBomb v now bomb index w = Some w' /\
    wf_grid (mapRef w') /\
    bombsRef w' = delete index (bombsRef w) /\
    playerRef w' =
      (if decrementsCount v bomb
       then Player.set_bombCount (playerRef w)
              (Player.bombCount (playerRef w) - 1)
       else playerRef w) /\
    explosionsRef w' = explosionsRef w ++ [e] /\
    Explosion.timer e = EXPLOSION_DURATION_MS /\
    gameStatus w' = gameStatus w /\
    enemiesRef w' = enemiesRef w /\
    inputsRef w' = inputsRef w.
Proof.
  intros Hwf.
  destruct (castRays_spec (bombCell bomb) (Bomb.range bomb) (mapRef w) dirs
              (mapRef w)
              [(GridPos.c (bombCell bomb), GridPos.r (bombCell bomb))]
              Hwf dirs_NoDup)
    as (ks & m' & Hrun & _ & Hwf' & _); [done|done|].
  unfold explodeBomb. rewrite Hrun. cbn [mbind option_bind].
  eexists _, _. split; [reflexivity|]. by split_and!.
Qed.

Lemma decrementsCount_player v (b : Bomb.t) :
  Bomb.ownerId b = playerName -> decrementsCount v b = true.
Proof. intros H. destruct v; simpl; [done|]. by rewrite H. Qed.

Lemma bombStep_inv v fp (dt : Q) (now : Z) (i : nat) (w w' : World) :
  BombInv w /\ gameStatus w <> Menu ->
  bombStep v fp dt now i w = Some w' ->
  BombInv w' /\ gameStatus w' <> Menu.
Proof.
  intros [[H1 H2 Hbd H3 H4 H5] Hst]. unfold bombStep.
  destruct (bombsRef w !! i) as [b|] eqn:Hb; [|done].
  cbn [mbind option_bind].
  set (b' := Bomb.set_timer b (fsub fp (Bomb.timer b) dt)).
  set (w1 := set_bombs w (<[i:=b']> (bombsRef w))).
  assert (BombInv w1) as Hinv1.
  { constructor; simpl.
    - by rewrite length_insert.
    - done.
    - done.
    - rewrite list_fmap_insert, list_insert_id; [done|].
      by rewrite list_lookup_fmap, Hb.
    - apply Forall_insert; [done|].
      rewrite Forall_forall in H4. apply (H4 b).
      by eapply list_elem_of_lookup_2.
    - done. }
  destruct (Qle_bool _ _); [|by intros [= <-]].
  destruct Hinv1 as [I1 I2 Ibd I3 I4 I5].
  destruct (explodeBomb_run v now b' i w1 (I5 Hst))
    as (w2 & e & -> & Hwf & Hbs & Hp & _ & _ & Hs & _).
  intros [= <-].
  assert (i < length (bombsRef w1))%nat as Hi.
  { simpl. rewrite length_insert. by eapply lookup_lt_Some. }
  assert (Bomb.ownerId b' = playerName) as Hown.
  { rewrite Forall_forall in H4. apply (H4 b).
    by eapply list_elem_of_lookup_2. }
  rewrite (decrementsCount_player v b' Hown) in Hp.
  split; [|by rewrite Hs].
  constructor; rewrite ?Hbs, ?Hp; simpl.
  - rewrite length_delete by (by apply lookup_lt_is_Some_2).
    rewrite H1, length_insert. apply lookup_lt_Some in Hb. lia.
  - done.
  - lia.
  - rewrite list_fmap_delete.
    eapply sublist_NoDup; [exact I3|apply sublist_delete].
  - by apply Forall_delete.
  - done.
Qed.

Lemma bombPhase_inv v fp (dt : Q) (now : Z) (w w' : World) :
  BombInv w -> gameStatus w <> Menu ->
  bombPhase v fp dt now w = Some w' ->
  BombInv w' /\ gameStatus w' <> Menu.
Proof.
  intros Hinv Hst. unfold bombPhase.
  apply (forDown_invariant
           (fun w => BombInv w /\ gameStatus w <> Menu)); [|done].
  intros i s s'. apply bombStep_inv.
Qed.

Lemma hitView_bombView (w w' : World) :
  hitView w' = hitView w -> bombView w' = bombView w.
Proof.
  unfold hitView, bombView. intros [= -> -> -> _ Hp].
  destruct (playerRef w), (playerRef w'). simpl in *. congruence.
Qed.


Lemma burnEnemy_view (p : Particle.t) (ei : nat) (w w' : World) :
  burnEnemy p ei w = Some w' ->
  hitView w' = hitView w /\ explosionsRef w' = explosionsRef w.
Proof.
  unfold burnEnemy. intros H.
  destruct (enemiesRef w !! ei); [|done]. simpl in H.
  destruct (_ && _); by injection H as <-.
Qed.

Lemma particleHit_view (p : Particle.t) (f f' : Frame) :
  particleHit p f = Some f' ->
  hitView (fst f') = hitView (fst f) /\
  explosionsRef (fst f') = explosionsRef (fst f).
Proof.
  destruct f as [w calls]. unfold particleHit. intros H.
  destruct (_ && _);
    (destruct (forDown _ _ _) as [w2|] eqn:E; [|done]);
    injection H as <-;
    (apply (forDown_invariant
              (fun s => hitView s = hitView w /\
                        explosionsRef s = explosionsRef w)) in E;
     [done| |done]);
    intros i s s' [Hv He] Hb; apply burnEnemy_view in Hb as [Hv' He'];
    split; congruence.
Qed.

Lemma explosionStep_view fp (dt : Q) (i : nat) (f f' : Frame) :
  explosionStep fp dt i f = Some f' ->
  hitView (fst f') = hitView (fst f).
Proof.
  destruct f as [w calls]. unfold explosionStep. intros H.
  destruct (explosionsRef w !! i); [|done]. simpl in H.
  destruct (Qle_bool _ _); [by injection H as <-|].
  apply (forEach_invariant (fun s => hitView (fst s) = hitView w)) in H;
    [done| |done].
  intros x s s' Hs Hx. apply particleHit_view in Hx as [Hv _]. congruence.
Qed.

Lemma explosionPhase_view fp (dt : Q) (f f' : Frame) :
  explosionPhase fp dt f = Some f' ->
  hitView (fst f') = hitView (fst f).
Proof.
  unfold explosionPhase. intros H.
  apply (forDown_invariant (fun s => hitView (fst s) = hitView (fst f)))
    in H; [done| |done].
  intros i s s' Hs Hx. apply explosionStep_view in Hx. congruence.
Qed.

Lemma enemyStep_player v fp rnd (m : Grid) (bs : list Bomb.t)
    (e : Enemy.t) (s s' : EnemyLoop) :
  enemyStep v fp rnd m bs e s = Some s' ->
  Player.set_alive (el_player s') true = Player.set_alive (el_player s) true.
Proof.
  unfold enemyStep. intros H.
  repeat (case_match; simplify_option_eq); done.
Qed.

Lemma enemyPhase_view v fp rnd (f f' : Frame) :
  enemyPhase v fp rnd f = Some f' ->
  hitView (fst f') = hitView (fst f) /\
  explosionsRef (fst f') = explosionsRef (fst f).
Proof.
  destruct f as [w calls]. unfold enemyPhase. intros H.
  destruct (forEach _ _ _) as [s|] eqn:E; [|done].
  injection H as <-.
  apply (forEach_invariant
           (fun s => Player.set_alive (el_player s) true
                     = Player.set_alive (playerRef w) true)) in E;
    [|intros x s1 s2 Hs Hx; apply enemyStep_player in Hx; congruence|done].
  unfold hitView. simpl. by rewrite E.
Qed.

(** The phases of a frame, in order. *)
Lemma update_playing v fp (dt : Q) (now : Z) (rnd : nat -> Q)
    (w : World) (f : Frame) :
  gameStatus w = Playing ->
  update v fp dt now rnd w = Some f ->
  exists w1 w2 f3 f4,
    playerPhase v fp now w = Some w1 /\
    bombPhase v fp dt now w1 = Some w2 /\
    explosionPhase fp dt (w2, []) = Some f3 /\
    enemyPhase v fp rnd f3 = Some f4 /\
    fst f = fst f4 /\
    snd f = (if Nat.eqb (length (enemiesRef (fst f4))) 0
             then snd f4 ++ [Won] else snd f4).
Proof.
  intros Hst. unfold update. rewrite Hst. cbn [isPlaying negb andb].
  intros H.
  destruct (playerPhase _ _ _ _) as [w1|] eqn:E1; [|done].
  cbn [mbind option_bind] in H.
  destruct (bombPhase _ _ _ _ _) as [w2|] eqn:E2; [|done].
  cbn [mbind option_bind] in H.
  destruct (explosionPhase _ _ _) as [f3|] eqn:E3; [|done].
  cbn [mbind option_bind] in H.
  destruct (enemyPhase _ _ _ _) as [[w4 calls]|] eqn:E4; [|done].
  cbn [mbind option_bind] in H.
  exists w1, w2, f3, (w4, calls). rewrite andb_true_r in H.
  cbn [fst snd]. split_and!; try done;
    destruct (Nat.eqb _ _); by injection H as <-.
Qed.

Lemma tick_inv v fp (dt : Q) (now : Z) (rnd : nat -> Q) (w w' : World) :
  BombInv w -> tick v fp dt now rnd w = Some w' -> BombInv w'.
Proof.
  intros Hinv Htick.
  destruct (decide (gameStatus w = Playing)) as [Hst | Hst];
    [|rewrite tick_not_playing in Htick by done; by injection Htick as <-].
  unfold tick in Htick.
  destruct (update _ _ _ _ _ _) as [f|] eqn:Hup; [|done].
  injection Htick as <-.
  destruct (update_playing _ _ _ _ _ _ _ Hst Hup)
    as (w1 & w2 & f3 & f4 & H1 & H2 & H3 & H4 & Hf & _).
  destruct (playerPhase_inv _ _ _ _ _ H1 Hinv) as [Hinv1 Hst1].
  destruct (bombPhase_inv _ _ _ _ _ _ Hinv1 ltac:(congruence) H2)
    as [Hinv2 Hst2].
  apply explosionPhase_view in H3. apply enemyPhase_view in H4 as [H4 _].
  assert (bombView (fst f) = bombView w2) as Hview.
  { rewrite Hf. apply hitView_bombView. simpl in H3. congruence. }
  pose proof (BombInv_view _ _ Hview Hinv2) as [I1 I2 Ibd I3 I4 I5].
  unfold commit. constructor; simpl; try done.
  intros _. apply I5.
  unfold bombView in Hview. injection Hview as -> _. done.
Qed.

Lemma mountWorld_inv v : BombInv (mountWorld v).
Proof. constructor; simpl; try done; try lia. constructor. Qed.

Lemma initGame_inv v (fuel : nat) (rnd : nat -> Q) (w w' : World) :
  initGame v fuel rnd w = Some w' -> BombInv w'.
Proof.
  intros H. apply initGame_map in H as (Hm & _ & Hb & _ & Hp & _).
  constructor; rewrite ?Hm, ?Hb, ?Hp; simpl; try done; try lia.
  - constructor.
  - intros _. apply newMap_wf.
Qed.

Lemma reachable_inv v fp (w : World) : reachable v fp w -> BombInv w.
Proof.
  induction 1 as [|w i _ IH|w fuel rnd w' _ _ _ Hinit
                  |w dt now rnd w' _ IH _ Htick].
  - apply mountWorld_inv.
  - by eapply BombInv_view; [|exact IH].
  - by eapply initGame_inv.
  - by eapply tick_inv.
Qed.

Lemma arenaWorld_reachable : reachable RevA exactOps arenaWorld.
Proof.
  apply (reach_init RevA exactOps (mountWorld RevA) 10 half);
    [apply reach_mount|done|by vm_compute].
Qed.

Lemma bombWorld_reachable : reachable RevA exactOps bombWorld.
Proof.
  apply (reach_tick RevA exactOps (set_inputs arenaWorld spaceKey) 16 0 half);
    [apply reach_input, arenaWorld_reachable|done|by vm_compute].
Qed.

(** C10. In every reachable state the player's [bombCount] is the number
    of bombs in the live collection, and every one of them is owned by the
    player. *)
Theorem C10_bomb_count_is_number_of_bombs v fp (w : World) :
  reachable v fp w ->
  Player.bombCount (playerRef w) = Z.of_nat (length (bombsRef w)) /\
  Forall (fun b => Bomb.ownerId b = playerName) (bombsRef w).
Proof.
  intros Hr. by destruct (reachable_inv v fp w Hr).
Qed.

Lemma C10_witness :
  reachable RevA exactOps bombWorld /\
  Player.bombCount (playerRef bombWorld) = 1 /\
  Player.bombCount (playerRef bombWorld)
    = Z.of_nat (length (bombsRef bombWorld)).
Proof.
  split; [apply bombWorld_reachable|]. split; [by vm_compute|].
  apply (C10_bomb_count_is_number_of_bombs RevA exactOps bombWorld).
  apply bombWorld_reachable.
Defined.

Lemma placeBomb_occupied (now : Z) (w : World) :
  (exists b, b ∈ bombsRef w /\
     bombCell b = getGridPos (Player.x (playerRef w))
                             (Player.y (playerRef w))) ->
  placeBomb now w = w.
Proof.
  intros (b & Hb & Hcell).
  destruct (placeBomb_cases now w)
    as [-> | (_ & b' & Hcell' & Hnew & _)]; [done|].
  exfalso. apply Hnew. rewrite Hcell', <- Hcell.
  by apply list_elem_of_fmap_2.
Qed.

(** C4. In every reachable state no two bombs of the live collection lie in
    the same grid cell, and an attempt to place a bomb while the player's
    cell already holds one gives the state back unchanged: no bomb is
    added and the bomb count stays. *)
Theorem C4_one_bomb_per_cell v fp (w : World) :
  reachable v fp w ->
  (forall (i j : nat) (b b' : Bomb.t),
     bombsRef w !! i = Some b -> bombsRef w !! j = Some b' ->
     bombCell b = bombCell b' -> i = j) /\
  (forall now : Z,
     (exists b, b ∈ bombsRef w /\
        bombCell b = getGridPos (Player.x (playerRef w))
                                (Player.y (playerRef w))) ->
     placeBomb now w = w).
Proof.
  intros Hr. destruct (reachable_inv v fp w Hr) as [_ _ _ Hnd _ _].
  split; [|intros now; apply placeBomb_occupied].
  intros i j b b' Hi Hj Hcell.
  eapply NoDup_lookup; [exact Hnd| |];
    rewrite list_lookup_fmap; [by rewrite Hi|by rewrite Hj, Hcell].
Qed.

Lemma C4_witness :
  reachable RevA exactOps bombWorld /\
  length (bombsRef bombWorld) = 1%nat /\
  placeBomb 7 bombWorld = bombWorld.
Proof.
  split; [apply bombWorld_reachable|]. split; [by vm_compute|].
  apply (C4_one_bomb_per_cell RevA exactOps bombWorld bombWorld_reachable).
  assert (exists b, bombsRef bombWorld = [b] /\
            bombCell b = getGridPos (Player.x (playerRef bombWorld))
                                    (Player.y (playerRef bombWorld)))
    as (b & Hb & Hcell)
    by (vm_compute; eexists; split; reflexivity).
  exists b. split; [|done]. rewrite Hb. by left.
Defined.

(** C5. In every reachable state the player's bomb count is at most
    [maxBombs], and a placement at the maximum is rejected; every bomb is
    owned by the player; and while the round is being played, detonating
    any bomb of the collection succeeds, removes that bomb and lowers the
    count by exactly one.  In revision B a bomb of another owner would
    leave the count alone. *)
Theorem C5_bomb_count_bounded v fp (w : World) :
  reachable v fp w ->
  Player.bombCount (playerRef w) <= Player.maxBombs (playerRef w) /\
  (forall now : Z,
     Player.bombCount (playerRef w) = Player.maxBombs (playerRef w) ->
     placeBomb now w = w) /\
  Forall (fun b => Bomb.ownerId b = playerName) (bombsRef w) /\
  (gameStatus w = Playing ->
   forall (now : Z) (i : nat) (b : Bomb.t),
     bombsRef w !! i = Some b ->
     exists w',
       explodeBomb v now b i w = Some w' /\
       bombsRef w' = delete i (bombsRef w) /\
       Player.bombCount (playerRef w')
         = Player.bombCount (playerRef w) - 1) /\
  (v = RevB ->
   forall (now : Z) (i : nat) (b : Bomb.t) (w' : World),
     Bomb.ownerId b <> playerName ->
     explodeBomb v now b i w = Some w' ->
     Player.bombCount (playerRef w') = Player.bombCount (playerRef w)).
Proof.
  intros Hr.
  pose proof (reachable_inv v fp w Hr) as [H1 H2 Hbd H3 H4 H5].
  split_and!; try done.
  - intros now Hmax. unfold placeBomb.
    by replace (Player.maxBombs (playerRef w)
                <=? Player.bombCount (playerRef w)) with true by lia.
  - intros Hst now i b Hb.
    destruct (explodeBomb_run v now b i w (H5 ltac:(congruence)))
      as (w' & e & Hrun & _ & Hbs & Hp & _).
    exists w'. split_and!; try done. rewrite Hp.
    rewrite decrementsCount_player; [done|].
    rewrite Forall_forall in H4. apply H4.
    by eapply list_elem_of_lookup_2.
  - intros -> now i b w' Hown. unfold explodeBomb.
    destruct (castRays _ _ _ _ _) as [[m' ps]|]; [|done].
    intros [= <-]. simpl.
    destruct (String.eqb_spec (Bomb.ownerId b) playerName); done.
Qed.

Lemma C5_witness :
  reachable RevA exactOps bombWorld /\
  Player.bombCount (playerRef bombWorld)
    <= Player.maxBombs (playerRef bombWorld).
Proof.
  split; [apply bombWorld_reachable|].
  exact (proj1 (C5_bomb_count_bounded RevA exactOps bombWorld
                  bombWorld_reachable)).
Defined.

(** ** A frame of a round in play always completes *)

Lemma forDown_total {S : Type} (P : nat -> S -> Prop)
    (body : nat -> S -> option S) (n : nat) (s : S) :
  (forall i s, P (Datatypes.S i) s ->
               exists s', body i s = Some s' /\ P i s') ->
  P n s -> exists s', forDown n body s = Some s' /\ P 0%nat s'.
Proof.
  intros Hbody. revert s. induction n as [|n IH]; intros s Hs; simpl.
  - by exists s.
  - destruct (Hbody n s Hs) as (s1 & -> & Hs1). simpl. by apply IH.
Qed.

Lemma forEach_total {A S : Type} (P : S -> Prop)
    (body : A -> S -> option S) (xs : list A) (s : S) :
  (forall x s, P s -> exists s', body x s = Some s' /\ P s') ->
  P s -> exists s', forEach body xs s = Some s' /\ P s'.
Proof.
  intros Hbody. revert s. induction xs as [|x xs IH]; intros s Hs; simpl.
  - by exists s.
  - destruct (Hbody x s Hs) as (s1 & -> & Hs1). simpl. by apply IH.
Qed.

Lemma isCollision_total (m : Grid) (bs : list Bomb.t)
    (targetX targetY w h currentX currentY : Q) :
  wf_grid m ->
  exists hit, isCollision m bs targetX targetY w h currentX currentY
              = Some hit.
Proof.
  intros Hwf. unfold isCollision.
  destruct (scanWalls_result m (entityRect targetX targetY w h) Hwf)
    as [-> | [-> _]]; simpl; eauto.
Qed.

Ltac run_isCollision Hwf :=
  repeat match goal with
    | |- context [isCollision ?m ?bs ?a ?b ?c ?d ?e ?f] =>
        let hit := fresh "hit" in
        let E := fresh "E" in
        destruct (isCollision_total m bs a b c d e f Hwf) as [hit E];
        rewrite E; cbn [mbind option_bind]
    end.




Lemma bombPhase_total v fp (dt : Q) (now : Z) (w1 : World) :
  wf_grid (mapRef w1) ->
  exists w2, bombPhase v fp dt now w1 = Some w2 /\ wf_grid (mapRef w2).
Proof.
  intros Hwf. unfold bombPhase.
  destruct (forDown_total
              (fun n s => (n <= length (bombsRef s))%nat /\
                          wf_grid (mapRef s))
              (bombStep v fp dt now) (length (bombsRef w1)) w1)
    as (w2 & Hrun & _ & Hwf2); [|done|by exists w2].
  intros i s [Hi Hs]. unfold bombStep.
  destruct (lookup_lt_is_Some_2 (bombsRef s) i ltac:(lia)) as [b ->].
  cbn [mbind option_bind].
  destruct (Qle_bool _ _).
  - set (s1 := set_bombs s _).
    destruct (explodeBomb_run v now
                (Bomb.set_timer b (fsub fp (Bomb.timer b) dt)) i s1 Hs)
      as (s' & e & -> & Hs' & Hbs & _).
    exists s'. split; [done|]. split; [|done].
    subst s1. rewrite Hbs. cbn [bombsRef set_bombs].
    rewrite length_delete, length_insert; [lia|].
    apply lookup_lt_is_Some_2. rewrite length_insert. lia.
  - eexists. split; [reflexivity|]. simpl. rewrite length_insert.
    split; [lia|done].
Qed.

Lemma burnLoop_total (p : Particle.t) (w : World) :
  exists w2, forDown (length (enemiesRef w)) (burnEnemy p) w = Some w2.
Proof.
  destruct (forDown_total
              (fun n s => (n <= length (enemiesRef s))%nat)
              (burnEnemy p) (length (enemiesRef w)) w)
    as (w2 & Hrun & _); [|done|by exists w2].
  intros i s Hi. unfold burnEnemy.
  destruct (lookup_lt_is_Some_2 (enemiesRef s) i ltac:(lia)) as [e He].
  rewrite He. cbn [mbind option_bind].
  destruct (_ && _); eexists; (split; [reflexivity|]); [|lia].
  cbn [enemiesRef set_enemies]. rewrite length_delete; [lia|].
  apply lookup_lt_is_Some_2. lia.
Qed.

Lemma particleHit_total (p : Particle.t) (f : Frame) :
  exists f', particleHit p f = Some f'.
Proof.
  destruct f as [w calls]. unfold particleHit.
  destruct (_ && _).
  - destruct (burnLoop_total p
                (set_player w (Player.set_alive (playerRef w) false)))
      as [w2 ->]. by eexists.
  - destruct (burnLoop_total p w) as [w2 ->]. by eexists.
Qed.

Lemma explosionPhase_total fp (dt : Q) (f : Frame) :
  exists f', explosionPhase fp dt f = Some f'.
Proof.
  unfold explosionPhase.
  destruct (forDown_total
              (fun n (s : Frame) =>
                 (n <= length (explosionsRef (fst s)))%nat)
              (explosionStep fp dt) (length (explosionsRef (fst f))) f)
    as (f' & Hrun & _); [|done|by exists f'].
  intros i [s calls] Hi. unfold explosionStep. cbn [fst] in *.
  destruct (lookup_lt_is_Some_2 (explosionsRef s) i ltac:(lia)) as [e ->].
  cbn [mbind option_bind].
  destruct (Qle_bool _ _).
  - eexists. split; [reflexivity|]. simpl.
    rewrite length_delete; [lia|]. apply lookup_lt_is_Some_2. lia.
  - set (s1 := set_explosions s _).
    destruct (forEach_total
                (fun t : Frame => explosionsRef (fst t) = explosionsRef s1)
                particleHit
                (Explosion.particles
                   (Explosion.set_timer e (fsub fp (Explosion.timer e) dt)))
                (s1, calls)) as (f' & Hrun & Hexp); [|done|].
    + intros p t Ht. destruct (particleHit_total p t) as [t' Hp].
      exists t'. split; [done|].
      apply particleHit_view in Hp as [_ Hp]. congruence.
    + exists f'. split; [done|]. rewrite Hexp. simpl.
      rewrite length_insert. lia.
Qed.

Lemma pickDir_total (u : Q) :
  (0 <= u)%Q -> (u < 1)%Q -> exists d, pickDir u = Some d.
Proof.
  intros H0 H1. unfold pickDir.
  assert (0 <= Qfloor (u * 4) < 4) as Hi.
  { split.
    - change 0 with (Qfloor 0). apply Qfloor_resp_le.
      apply Qmult_le_0_compat; done.
    - assert (Qfloor (u * 4) < 3 + 1); [|lia].
      rewrite Zlt_Qlt. eapply Qle_lt_trans; [apply Qfloor_le|].
      change (inject_Z (3 + 1)) with (1 * 4)%Q.
      apply Qmult_lt_compat_r; done. }
  replace (Qfloor (u * 4) <? 0) with false by lia.
  apply lookup_lt_is_Some_2. unfold enemyDirs. cbn [length]. lia.
Qed.

Lemma enemyStep_total v fp rnd (m : Grid) (bs : list Bomb.t)
    (e : Enemy.t) (s : EnemyLoop) :
  wf_grid m -> unitSamples rnd ->
  exists s', enemyStep v fp rnd m bs e s = Some s'.
Proof.
  intros Hwf Hrnd. unfold enemyStep.
  destruct (Qltb (fhypot _ _ _) _); run_isCollision Hwf;
    (destruct hit; cbn [mbind option_bind];
     [destruct (pickDir_total (rnd (el_cursor s))) as [d ->];
        [apply Hrnd|apply Hrnd|]; cbn [mbind option_bind]|]);
    (destruct (Qltb (rnd _) _);
     [match goal with
      | |- context [pickDir (rnd ?k)] =>
          destruct (pickDir_total (rnd k)) as [d' ->];
          [apply Hrnd|apply Hrnd|]
      end|]);
    cbn [mbind option_bind]; eauto.
Qed.

Lemma enemyPhase_total v fp rnd (f : Frame) :
  wf_grid (mapRef (fst f)) -> unitSamples rnd ->
  exists f', enemyPhase v fp rnd f = Some f'.
Proof.
  destruct f as [w calls]. cbn [fst]. intros Hwf Hrnd. unfold enemyPhase.
  destruct (forEach_total (fun _ => True)
              (enemyStep v fp rnd (mapRef w) (bombsRef w))
              (enemiesRef w)
              (mkEnemyLoop [] (playerRef w) calls 0%nat))
    as (s & -> & _); [|done|simpl; eauto].
  intros e s _. destruct (enemyStep_total v fp rnd _ (bombsRef w) e s
                            Hwf Hrnd) as [s' ->]. eauto.
Qed.


(** ** C2: what scales with the delta-time and what does not *)

Lemma forDown_indexed {S : Type} (P : nat -> S -> Prop)
    (body : nat -> S -> option S) (n : nat) (s s' : S) :
  (forall i s s', P (Datatypes.S i) s -> body i s = Some s' -> P i s') ->
  P n s -> forDown n body s = Some s' -> P 0%nat s'.
Proof.
  intros Hbody. revert s. induction n as [|n IH]; intros s Hs; simpl.
  - by intros [= <-].
  - destruct (body n s) as [s1|] eqn:E; [|done]. simpl.
    apply IH. by eapply Hbody.
Qed.

Lemma forEach_elements {A S : Type} (P : S -> Prop)
    (body : A -> S -> option S) (xs : list A) (s s' : S) :
  (forall x s s', x ∈ xs -> P s -> body x s = Some s' -> P s') ->
  P s -> forEach body xs s = Some s' -> P s'.
Proof.
  revert s. induction xs as [|x xs IH]; intros s Hbody Hs; simpl.
  - by intros [= <-].
  - destruct (body x s) as [s1|] eqn:E; [|done]. simpl.
    apply IH.
    + intros y t t' Hy. apply Hbody. by right.
    + eapply Hbody; [by left|done|done].
Qed.

(** One step of a loop that walks a list downwards and, at index [i],
    either replaces the element or replaces and then removes it. *)
Lemma aging_step {A : Type} (l cur rest : list A) (i : nat) (x x' : A) :
  (i < length l)%nat ->
  cur = take (S i) l ++ rest ->
  cur !! i = Some x ->
  l !! i = Some x /\
  <[i:=x']> cur = take i l ++ x' :: rest /\
  delete i (<[i:=x']> cur) = take i l ++ rest.
Proof.
  intros Hi -> Hx.
  destruct (lookup_lt_is_Some_2 l i Hi) as [y Hy].
  rewrite (take_S_r _ _ _ Hy), <- app_assoc in *. simpl in *.
  assert (length (take i l) = i) as Hlen by (rewrite length_take; lia).
  assert (x = y) as ->.
  { rewrite lookup_app_r, Hlen, Nat.sub_diag in Hx by lia.
    by injection Hx. }
  split; [done|].
  assert (<[i:=x']> (take i l ++ y :: rest) = take i l ++ x' :: rest) as ->.
  { rewrite insert_app_r_alt, Hlen, Nat.sub_diag by lia. done. }
  split; [done|].
  rewrite <- Hlen at 1. apply delete_middle.
Qed.

Lemma explodeBomb_refs v (now : Z) (bomb : Bomb.t) (index : nat)
    (w w' : World) :
  explodeBomb v now bomb index w = Some w' ->
  bombsRef w' = delete index (bombsRef w) /\
  enemiesRef w' = enemiesRef w /\
  Player.x (playerRef w') = Player.x (playerRef w) /\
  Player.y (playerRef w') = Player.y (playerRef w) /\
  exists e, explosionsRef w' = explosionsRef w ++ [e] /\
            Explosion.timer e = EXPLOSION_DURATION_MS.
Proof.
  unfold explodeBomb.
  destruct (castRays _ _ _ _ _) as [[m' ps]|]; [|done].
  intros [= <-]. simpl. split_and!; try done.
  - by destruct (decrementsCount v bomb).
  - by destruct (decrementsCount v bomb).
  - by eexists.
Qed.



Lemma playerPhase_enemies v fp (now : Z) (w w1 : World) :
  playerPhase v fp now w = Some w1 -> enemiesRef w1 = enemiesRef w.
Proof.
  unfold playerPhase. intros H.
  destruct (desiredMove _ _ _) as [dx dy].
  destruct (moveX _ _ _ _ _ _) as [p1|]; [|done].
  cbn [mbind option_bind] in H.
  destruct (moveY _ _ _ _ _ _) as [p2|]; [|done].
  cbn [mbind option_bind] in H.
  destruct (Inputs.Space _); injection H as <-; [|done].
  destruct (placeBomb_cases now (set_player w p2))
    as [-> | (_ & b & _ & _ & _ & _ & ->)]; done.
Qed.

Lemma bombPhase_refs v fp (dt : Q) (now : Z) (w1 w2 : World) :
  bombPhase v fp dt now w1 = Some w2 ->
  enemiesRef w2 = enemiesRef w1 /\
  Player.x (playerRef w2) = Player.x (playerRef w1) /\
  Player.y (playerRef w2) = Player.y (playerRef w1).
Proof.
  unfold bombPhase.
  apply (forDown_invariant
           (fun s => enemiesRef s = enemiesRef w1 /\
                     Player.x (playerRef s) = Player.x (playerRef w1) /\
                     Player.y (playerRef s) = Player.y (playerRef w1)));
    [|done].
  intros i s s' (He & Hx & Hy). unfold bombStep.
  destruct (bombsRef s !! i) as [b|]; [|done].
  cbn [mbind option_bind].
  destruct (Qle_bool _ _); [|by intros [= <-]].
  intros H. apply explodeBomb_refs in H as (_ & He' & Hx' & Hy' & _).
  simpl in *. split_and!; congruence.
Qed.

Lemma burnEnemy_enemies (p : Particle.t) (ei : nat) (w w' : World)
    (e : Enemy.t) :
  burnEnemy p ei w = Some w' -> e ∈ enemiesRef w' -> e ∈ enemiesRef w.
Proof.
  unfold burnEnemy. intros H.
  destruct (enemiesRef w !! ei); [|done]. simpl in H.
  destruct (_ && _); injection H as <-; [|done].
  simpl. apply list_elem_of_delete_inv.
Qed.

Lemma particleHit_enemies (p : Particle.t) (f f' : Frame) (e : Enemy.t) :
  particleHit p f = Some f' ->
  e ∈ enemiesRef (fst f') -> e ∈ enemiesRef (fst f).
Proof.
  destruct f as [w calls]. unfold particleHit. cbn [fst].
  destruct (_ && _);
    (destruct (forDown _ _ _) as [w2|] eqn:E; [|done]);
    intros [= <-]; cbn [fst]; revert E;
    apply (forDown_invariant
             (fun u => e ∈ enemiesRef u -> e ∈ enemiesRef w));
    try done;
    intros j u u' Hu Hb He'; apply Hu; by eapply burnEnemy_enemies.
Qed.

Lemma explosionStep_enemies fp (dt : Q) (i : nat) (f f' : Frame)
    (e : Enemy.t) :
  explosionStep fp dt i f = Some f' ->
  e ∈ enemiesRef (fst f') -> e ∈ enemiesRef (fst f).
Proof.
  destruct f as [w calls]. unfold explosionStep. cbn [fst].
  destruct (explosionsRef w !! i) as [x|]; [|done].
  cbn [mbind option_bind].
  destruct (Qle_bool _ _); [by intros [= <-]|].
  apply (forEach_invariant
           (fun t : Frame => e ∈ enemiesRef (fst t) -> e ∈ enemiesRef w));
    [|done].
  intros p t t' Ht Hp He. apply Ht. by eapply particleHit_enemies.
Qed.

Lemma explosionPhase_enemies fp (dt : Q) (f f' : Frame) (e : Enemy.t) :
  explosionPhase fp dt f = Some f' ->
  e ∈ enemiesRef (fst f') -> e ∈ enemiesRef (fst f).
Proof.
  unfold explosionPhase.
  apply (forDown_invariant
           (fun s : Frame =>
              e ∈ enemiesRef (fst s) -> e ∈ enemiesRef (fst f)));
    [|done].
  intros i s s' Hs Hstep He. apply Hs. by eapply explosionStep_enemies.
Qed.











Lemma half_unitSamples : unitSamples half.
Proof. intros k. by split. Qed.

Lemma arenaWorld_grid : wf_grid (mapRef arenaWorld).
Proof.
  apply (inv_grid _ (reachable_inv _ _ _ arenaWorld_reachable)).
  by vm_compute.
Qed.


(** ** C3: a dead player and a won round *)

Lemma reachable_ticks v fp (args : list FrameArgs) (w w' : World) :
  reachable v fp w ->
  Forall (fun a => (0 <= fa_dt a)%Q) args ->
  ticks v fp args w = Some w' ->
  reachable v fp w'.
Proof.
  revert w. induction args as [|a args IH]; intros w Hr Hdt; simpl.
  - by intros [= <-].
  - apply Forall_cons in Hdt as [Ha Hdt].
    destruct (tick _ _ _ _ _ _) as [w1|] eqn:E; [|done]. simpl.
    apply IH; [|done]. by eapply reach_tick.
Qed.

Lemma doomedWorld_reachable : reachable RevA exactOps doomedWorld.
Proof.
  apply (reachable_ticks RevA exactOps doomedArgs
           (set_inputs doomedStart spaceKey)).
  - apply reach_input.
    apply (reach_init RevA exactOps (mountWorld RevA) 10 rndSpawnRow1);
      [apply reach_mount|done|by vm_compute].
  - unfold doomedArgs. constructor; [done|].
    apply Forall_forall. intros a Ha.
    apply list_elem_of_In, repeat_spec in Ha as ->. done.
  - by vm_compute.
Qed.

(** C3, where the code departs from it.  [doomedWorld] is reachable and in
    play, with the player alive.  In its next frame the player's own bomb
    goes off; the blast covers the player's cell and the cell of all four
    enemies.  The frame calls [setGameStatus(Lost)] and then, the enemy
    list being empty and the captured status still [Playing],
    [setGameStatus(Won)]: the round ends [Won] with a dead player.  Both
    revisions do so. *)
Theorem C3_dead_player_round_won :
  reachable RevA exactOps doomedWorld /\
  gameStatus doomedWorld = Playing /\
  Player.alive (playerRef doomedWorld) = true /\
  (exists f,
     update RevA exactOps 50 0 half doomedWorld = Some f /\
     snd f = [Lost; Won] /\
     Player.alive (playerRef (fst f)) = false /\
     enemiesRef (fst f) = [] /\
     tick RevA exactOps 50 0 half doomedWorld = Some (commit f) /\
     gameStatus (commit f) = Won) /\
  (forall v,
     gameStatus <$> tick v exactOps 50 0 half doomedWorld = Some Won /\
     Player.alive <$> (playerRef <$> tick v exactOps 50 0 half doomedWorld)
       = Some false).
Proof.
  split; [apply doomedWorld_reachable|].
  split; [by vm_compute|]. split; [by vm_compute|]. split.
  - destruct (update RevA exactOps 50 0 half doomedWorld) as [f|] eqn:E;
      [|by vm_compute in E].
    exists f. unfold tick. rewrite E.
    assert (Some f = update RevA exactOps 50 0 half doomedWorld) as Hf
      by done.
    clear E. vm_compute in Hf. injection Hf as ->.
    split_and!; by vm_compute.
  - intros v. destruct v; split; by vm_compute.
Qed.

(** ** The theorems at concrete inputs *)

Lemma bombWorld_grid : wf_grid (mapRef bombWorld).
Proof.
  apply (inv_grid _ (reachable_inv _ _ _ bombWorld_reachable)).
  by vm_compute.
Qed.

Lemma C1_witness :
  wf_grid (mapRef bombWorld) /\
  exists (kU kD kL kR : nat) (w' : World) (e : Explosion.t),
    explodeBomb RevA 0 spawnBomb 0 bombWorld = Some w' /\
    explosionsRef w' = explosionsRef bombWorld ++ [e] /\
    particleCell <$> Explosion.particles e =
      (1, 1) :: rayCells (bombCell spawnBomb) (-1, 0) kU ++
                rayCells (bombCell spawnBomb) (1, 0) kD ++
                rayCells (bombCell spawnBomb) (0, -1) kL ++
                rayCells (bombCell spawnBomb) (0, 1) kR /\
    RaySpec (mapRef bombWorld) (bombCell spawnBomb) (-1, 0) 2 kU /\
    RaySpec (mapRef bombWorld) (bombCell spawnBomb) (1, 0) 2 kD /\
    RaySpec (mapRef bombWorld) (bombCell spawnBomb) (0, -1) 2 kL /\
    RaySpec (mapRef bombWorld) (bombCell spawnBomb) (0, 1) 2 kR.
Proof.
  split; [apply bombWorld_grid|].
  destruct (C1_explosion_rays RevA 0 spawnBomb 0 bombWorld bombWorld_grid)
    as (kU & kD & kL & kR & w' & e & Hrun & Hexp & _ & _ & Hcells & _
        & HU & HD & HL & HR & _).
  exists kU, kD, kL, kR, w', e.
  split; [exact Hrun|]. split; [exact Hexp|]. split; [exact Hcells|].
  split; [exact HU|]. split; [exact HD|]. split; [exact HL|exact HR].
Defined.

Lemma C6_witness :
  (gameStatus lostWorld = Lost \/ gameStatus lostWorld = Won) /\
  ticks RevA exactOps
        [mkFrameArgs 16 0 half; mkFrameArgs 0 1 rndTurnLeft;
         mkFrameArgs 3000 2 half] lostWorld
    = Some lostWorld.
Proof.
  assert (gameStatus lostWorld = Lost \/ gameStatus lostWorld = Won) as H
    by (left; reflexivity).
  split; [exact H|].
  apply (C6_finished_round_is_frozen RevA exactOps _ lostWorld H).
Defined.

(** Scenario E: the player steps off the bomb under it, and is stopped
    when it walks back from the next cell. *)
Lemma C7_witness :
  scanWalls openArena (entityRect 76 72 30 30) = Some false /\
  scanWalls openArena (entityRect 110 72 30 30) = Some false /\
  isCollision openArena [spawnBomb] 76 72 30 30 72 72 = Some false /\
  isCollision openArena [spawnBomb] 110 72 30 30 114 72 = Some true.
Proof.
  assert (scanWalls openArena (entityRect 76 72 30 30) = Some false) as H1
    by (by vm_compute).
  assert (scanWalls openArena (entityRect 110 72 30 30) = Some false) as H2
    by (by vm_compute).
  split; [done|]. split; [done|]. split.
  - apply (C7_bomb_blocks_unless_standing_on_it
             openArena [spawnBomb] 76 72 30 30 72 72 H1).
    intros b Hb _. apply list_elem_of_singleton in Hb as ->. by vm_compute.
  - apply (C7_bomb_blocks_unless_standing_on_it
             openArena [spawnBomb] 110 72 30 30 114 72 H2).
    exists spawnBomb. split; [by left|]. split; by vm_compute.
Defined.

Lemma openArena_grid : wf_grid openArena.
Proof. apply newMap_wf. Qed.

Lemma C8_witness :
  wf_grid openArena /\
  covers (entityRect 10 72 30 30) 1 (-1) /\
  outOfGrid 1 (-1) = true /\
  isCollision openArena [] 10 72 30 30 14 72 = Some true.
Proof.
  assert (covers (entityRect 10 72 30 30) 1 (-1)) as Hc by (by vm_compute).
  split; [apply openArena_grid|]. split; [done|]. split; [done|].
  apply (C8_outside_the_grid_is_solid openArena [] 10 72 30 30 14 72 1 (-1)
           openArena_grid Hc eq_refl).
Defined.

Lemma C9_witness :
  initGame RevA 10 half (mountWorld RevA) = Some arenaWorld /\
  wf_grid (mapRef arenaWorld) /\
  mapAt (mapRef arenaWorld) 14 7 = Some HardWall /\
  mapAt (mapRef arenaWorld) 4 6 = Some HardWall /\
  mapAt (mapRef arenaWorld) 2 1 = Some Empty.
Proof.
  assert (initGame RevA 10 half (mountWorld RevA) = Some arenaWorld) as H
    by (by vm_compute).
  split; [done|].
  destruct (C9_generated_grid RevA 10 half (mountWorld RevA) arenaWorld H)
    as (Hwf & Hhard & Hsafe & _).
  split; [done|]. split_and!.
  - apply Hhard; [by vm_compute|]. right. by left.
  - apply Hhard; [by vm_compute|]. by repeat right.
  - apply Hsafe; by vm_compute.
Defined.

(** * Further properties of the engine *)

(** ** Rectangles and cells *)

Lemma Qle_bool_false (a b : Q) : Qle_bool a b = false <-> (b < a)%Q.
Proof.
  split; intros H.
  - apply Qnot_le_lt. intros Hle. apply Qle_bool_iff in Hle. congruence.
  - destruct (Qle_bool a b) eqn:E; [|done].
    apply Qle_bool_iff in E. exfalso. by eapply Qlt_not_le.
Qed.

Lemma rectIntersect_true (r1 r2 : Rect.t) :
  rectIntersect r1 r2 = true <->
  (Rect.x r2 < Rect.x r1 + Rect.w r1)%Q /\
  (Rect.x r1 < Rect.x r2 + Rect.w r2)%Q /\
  (Rect.y r2 < Rect.y r1 + Rect.h r1)%Q /\
  (Rect.y r1 < Rect.y r2 + Rect.h r2)%Q.
Proof.
  unfold rectIntersect.
  rewrite negb_true_iff, !orb_false_iff, !Qle_bool_false. tauto.
Qed.

(** X1. [rectIntersect] does not depend on the order of its arguments, and
    it is a strict overlap: two rectangles that only share an edge, the
    second starting where the first ends, do not intersect. *)
Theorem X1_rectIntersect_symmetric_strict (r1 r2 : Rect.t) :
  rectIntersect r1 r2 = rectIntersect r2 r1 /\
  ((Rect.x r2 == Rect.x r1 + Rect.w r1)%Q -> rectIntersect r1 r2 = false) /\
  ((Rect.y r2 == Rect.y r1 + Rect.h r1)%Q -> rectIntersect r1 r2 = false).
Proof.
  split; [|split].
  - destruct (rectIntersect r1 r2) eqn:E1, (rectIntersect r2 r1) eqn:E2;
      try done.
    + apply rectIntersect_true in E1. rewrite <- E2. symmetry.
      apply rectIntersect_true. tauto.
    + apply rectIntersect_true in E2. rewrite <- E1.
      apply rectIntersect_true. tauto.
  - intros Heq. destruct (rectIntersect r1 r2) eqn:E; [|done].
    apply rectIntersect_true in E as (H & _). rewrite Heq in H.
    by apply Qlt_irrefl in H.
  - intros Heq. destruct (rectIntersect r1 r2) eqn:E; [|done].
    apply rectIntersect_true in E as (_ & _ & H & _). rewrite Heq in H.
    by apply Qlt_irrefl in H.
Qed.

Lemma Qfloor_tile (x : Q) (c : Z) :
  Qfloor (x / TILE_SIZE) = c <->
  (inject_Z c * TILE_SIZE <= x)%Q /\ (x < (inject_Z c + 1) * TILE_SIZE)%Q.
Proof.
  unfold TILE_SIZE. split.
  - intros <-.
    pose proof (Qfloor_le (x / 48)) as H1.
    pose proof (Qlt_floor (x / 48)) as H2.
    rewrite inject_Z_plus in H2. change (inject_Z 1) with 1%Q in H2.
    unfold Qdiv in *. change (/ 48)%Q with (1 # 48)%Q in *.
    split; lra.
  - intros [Hle Hlt]. unfold Qdiv. change (/ 48)%Q with (1 # 48)%Q.
    apply Qfloor_unique.
    + lra.
    + rewrite inject_Z_plus. change (inject_Z 1) with 1%Q. lra.
Qed.

(** X2. [getGridPos] returns the cell whose tile contains the point, and
    it undoes the tile-center anchoring used for bombs and enemies. *)
Theorem X2_getGridPos_cell (x y : Q) (c r : Z) :
  (getGridPos x y = GridPos.mk c r <->
   (inject_Z c * TILE_SIZE <= x)%Q /\
   (x < (inject_Z c + 1) * TILE_SIZE)%Q /\
   (inject_Z r * TILE_SIZE <= y)%Q /\
   (y < (inject_Z r + 1) * TILE_SIZE)%Q) /\
  getGridPos (inject_Z c * TILE_SIZE + TILE_SIZE / 2)
             (inject_Z r * TILE_SIZE + TILE_SIZE / 2) = GridPos.mk c r.
Proof.
  split.
  - unfold getGridPos. split.
    + intros [= Hc Hr]. apply Qfloor_tile in Hc, Hr. tauto.
    + intros (H1 & H2 & H3 & H4). f_equal; by apply Qfloor_tile.
  - unfold getGridPos. by rewrite !Qfloor_tile_center.
Qed.

(** ** [isCollision], both directions *)

Lemma scanCols_true (m : Grid) (r : Z) (n : nat) (c : Z) :
  scanCols m r c n = Some true ->
  exists j, c <= j < c + Z.of_nat n /\ solidAt m r j.
Proof.
  revert c. induction n as [|n IH]; intros c; simpl; [done|].
  destruct (outOfGrid r c) eqn:Eo.
  { intros _. exists c. split; [lia|by left]. }
  destruct (mapAt m r c) as [t|] eqn:Et; [|done]. simpl.
  destruct t; simpl.
  - intros H. destruct (IH _ H) as (j & Hj & Hs). exists j. split; [lia|done].
  - intros _. exists c. split; [lia|]. right. by exists HardWall.
  - intros _. exists c. split; [lia|]. right. by exists SoftWall.
Qed.

Lemma scanRows_true (m : Grid) (n : nat) (r left right : Z) :
  scanRows m r n left right = Some true ->
  exists i j, r <= i < r + Z.of_nat n /\ left <= j <= right /\ solidAt m i j.
Proof.
  revert r. induction n as [|n IH]; intros r; simpl; [done|].
  destruct (scanCols m r left _) as [[|]|] eqn:Ec; [| |done]; simpl.
  - intros _. apply scanCols_true in Ec as (j & Hj & Hs).
    exists r, j. split; [lia|]. split; [lia|done].
  - intros H. destruct (IH _ H) as (i & j & Hi & Hj & Hs).
    exists i, j. split; [lia|done].
Qed.

(** X3. On a well-formed grid the blocked-movement check always answers,
    and it answers "blocked" exactly when some cell covered by the target
    rectangle is outside the grid or not Empty, or some bomb overlaps the
    target rectangle and not the current one. *)
Theorem X3_isCollision_exact (m : Grid) (bs : list Bomb.t)
    (targetX targetY w h currentX currentY : Q) :
  wf_grid m ->
  let pRect := entityRect targetX targetY w h in
  let curRect := entityRect currentX currentY w h in
  exists hit,
    isCollision m bs targetX targetY w h currentX currentY = Some hit /\
    (hit = true <->
     (exists r c, covers pRect r c /\ solidAt m r c) \/
     (exists b, b ∈ bs /\ bombBlocks pRect curRect b)).
Proof.
  intros Hwf pRect curRect. unfold isCollision. fold pRect curRect.
  destruct (scanWalls_result m pRect Hwf) as [Hw | [Hw Hfree]];
    rewrite Hw; simpl.
  - exists true. split; [done|]. split; [|done]. intros _. left.
    unfold scanWalls in Hw.
    apply scanRows_true in Hw as (i & j & Hi & Hj & Hs).
    exists i, j. split; [|done]. unfold covers. lia.
  - eexists. split; [reflexivity|].
    rewrite scanBombs_true. split; [by right|].
    intros [(r & c & Hc & Hs) | Hb]; [|done].
    destruct (Hfree r c Hc) as [Hin Ht]. exfalso.
    destruct Hs as [Ho | (t & Ht' & Hne)].
    + apply outOfGrid_false in Hin. congruence.
    + congruence.
Qed.

(** ** Round start: the enemies *)

Lemma spawnEnemies_spec v rnd (m : Grid) (fuel : nat) :
  forall (count : nat) (attempts : Z) (k : nat) (acc res : list Enemy.t)
         (k' : nat),
  spawnEnemies v rnd m fuel count attempts k acc = Some (res, k') ->
  exists new, res = acc ++ new /\ Forall (spawnedOn m) new /\
              (length new <= count)%nat /\
              (v = RevA -> length new = count).
Proof.
  induction fuel as [|fuel IH]; intros count attempts k acc res k'.
  - simpl. destruct (negb _) eqn:E; [|done].
    intros [= <- <-]. exists []. rewrite app_nil_r.
    split_and!; [done|constructor|simpl; lia|].
    intros ->. simpl in E. destruct count; done.
  - cbn [spawnEnemies].
    destruct (negb _) eqn:E.
    { intros [= <- <-]. exists []. rewrite app_nil_r.
      split_and!; [done|constructor|simpl; lia|].
      intros ->. simpl in E. destruct count; done. }
    assert (count <> 0%nat) as Hcount.
    { intros ->. by destruct v. }
    set (r := Qfloor (rnd k * inject_Z (GRID_ROWS - 2)) + 1).
    set (c := Qfloor (rnd (S k) * inject_Z (GRID_COLS - 2)) + 1).
    destruct (mapAt m r c) as [t|] eqn:Et; [|done].
    cbn [mbind option_bind].
    destruct (TileType_eqb t Empty && ((4 <? r) || (4 <? c))) eqn:Ec.
    + intros H. apply IH in H as (new & -> & Hall & Hlen & HA).
      exists (spawnEnemy (rnd (S (S k))) r c :: new).
      rewrite <- app_assoc. split_and!; try done.
      * constructor; [|done]. exists r, c, (rnd (S (S k))).
        apply andb_true_iff in Ec as [Ht Hrc].
        split_and!; [done| |lia]. by destruct t.
      * simpl. lia.
      * intros ->. simpl. rewrite HA by done. lia.
    + intros H. apply IH in H as (new & -> & Hall & Hlen & HA).
      by exists new.
Qed.

Lemma initGame_spawnedOn v (fuel : nat) (rnd : nat -> Q)
    (w w' : World) :
  initGame v fuel rnd w = Some w' ->
  Forall (spawnedOn (mapRef w')) (enemiesRef w').
Proof.
  unfold initGame. destruct (newMap v rnd) as [m k].
  destruct (spawnEnemies _ _ _ _ _ _ _ _) as [[es k']|] eqn:E; [|done].
  simpl. intros [= <-]. simpl.
  by apply spawnEnemies_spec in E as (new & -> & Hall & _).
Qed.

(** X4. Every enemy that [initGame] spawns stands at the center of an
    Empty tile of the new grid whose row or column is beyond 4, facing
    right; there are never more than the requested number, and in revision
    A, which has no attempt cap, exactly four. *)
Theorem X4_enemies_spawn_on_empty_tiles v (fuel : nat) (rnd : nat -> Q)
    (w w' : World) :
  initGame v fuel rnd w = Some w' ->
  Forall (spawnedOn (mapRef w')) (enemiesRef w') /\
  (length (enemiesRef w') <= initialEnemyCount v)%nat /\
  (v = RevA -> length (enemiesRef w') = 4%nat).
Proof.
  unfold initGame. destruct (newMap v rnd) as [m k].
  destruct (spawnEnemies _ _ _ _ _ _ _ _) as [[es k']|] eqn:E; [|done].
  simpl. intros [= <-]. simpl.
  apply spawnEnemies_spec in E as (new & -> & Hall & Hlen & HA).
  simpl. split_and!; try done. intros ->. by rewrite HA.
Qed.

Lemma spawn_index_inGrid (u : Q) :
  (0 <= u)%Q -> (u < 1)%Q ->
  1 <= Qfloor (u * inject_Z (GRID_ROWS - 2)) + 1 <= 13.
Proof.
  intros H0 H1. change (inject_Z (GRID_ROWS - 2)) with 13%Q.
  assert (0 <= Qfloor (u * 13)).
  { change 0 with (Qfloor 0). apply Qfloor_resp_le. lra. }
  assert (Qfloor (u * 13) < 12 + 1); [|lia].
  rewrite Zlt_Qlt. eapply Qle_lt_trans; [apply Qfloor_le|].
  change (inject_Z (12 + 1)) with 13%Q. lra.
Qed.

Lemma spawnEnemies_capped rnd (m : Grid) (fuel : nat) :
  wf_grid m -> unitSamples rnd ->
  forall (count : nat) (attempts : Z) (k : nat) (acc : list Enemy.t),
  100 - attempts <= Z.of_nat fuel ->
  exists res, spawnEnemies RevB rnd m fuel count attempts k acc = Some res.
Proof.
  intros Hwf Hrnd.
  induction fuel as [|fuel IH]; intros count attempts k acc Hfuel.
  - simpl. replace (attempts <? 100) with false by lia.
    rewrite andb_false_r. simpl. by eexists.
  - cbn [spawnEnemies].
    destruct (negb _); [by eexists|].
    set (r := Qfloor (rnd k * inject_Z (GRID_ROWS - 2)) + 1).
    set (c := Qfloor (rnd (S k) * inject_Z (GRID_COLS - 2)) + 1).
    assert (inGrid r c) as Hin.
    { pose proof (spawn_index_inGrid (rnd k)
                    (proj1 (Hrnd k)) (proj2 (Hrnd k))).
      pose proof (spawn_index_inGrid (rnd (S k))
                    (proj1 (Hrnd (S k))) (proj2 (Hrnd (S k)))).
      unfold inGrid, GRID_ROWS, GRID_COLS in *. subst r c.
      unfold GRID_ROWS, GRID_COLS. lia. }
    destruct (mapAt_Some m r c Hwf Hin) as [t ->].
    cbn [mbind option_bind].
    destruct (_ && _); apply IH; lia.
Qed.

(** X5. Revision B caps the placement loop at 100 attempts: with samples in
    [0, 1) and fuel for 100 iterations, [initGame] always returns. *)
Theorem X5_capped_spawn_returns (fuel : nat) (rnd : nat -> Q) (w : World) :
  unitSamples rnd -> (100 <= fuel)%nat ->
  exists w', initGame RevB fuel rnd w = Some w'.
Proof.
  intros Hrnd Hfuel. unfold initGame.
  pose proof (newMap_wf RevB rnd) as Hwf.
  destruct (newMap RevB rnd) as [m k]. simpl in Hwf.
  destruct (spawnEnemies_capped rnd m fuel Hwf Hrnd
              (initialEnemyCount RevB) 0 k []) as [[es k'] ->]; [lia|].
  simpl. by eexists.
Qed.

Lemma spawnEnemies_zero (m : Grid) (fuel : nat) :
  mapAt m 1 1 = Some Empty ->
  forall (count : nat) (attempts : Z) (k : nat) (acc : list Enemy.t),
  count <> 0%nat ->
  spawnEnemies RevA zeroSamples m fuel count attempts k acc = None.
Proof.
  intros Hm. induction fuel as [|fuel IH]; intros count attempts k acc Hc.
  - simpl. by destruct count.
  - cbn [spawnEnemies]. destruct count as [|count]; [done|].
    cbn [Nat.eqb negb]. 
    change (Qfloor (zeroSamples k * inject_Z (GRID_ROWS - 2)) + 1) with 1.
    change (Qfloor (zeroSamples (S k) * inject_Z (GRID_COLS - 2)) + 1)
      with 1.
    rewrite Hm. simpl. by apply IH.
Qed.

(** X6. Revision A's placement loop has no cap.  With samples that are all
    zero every attempt lands on the spawn corner and is rejected, so the
    loop never ends (no amount of fuel lets [initGame] return), while
    revision B returns with no enemy at all. *)
Theorem X6_uncapped_spawn_can_diverge (w : World) :
  unitSamples zeroSamples /\
  (forall fuel, initGame RevA fuel zeroSamples w = None) /\
  (exists w', initGame RevB 100 zeroSamples w = Some w' /\
              enemiesRef w' = []).
Proof.
  split; [by intros k|]. split.
  - intros fuel. unfold initGame.
    destruct (newMap RevA zeroSamples) as [m k] eqn:E.
    rewrite spawnEnemies_zero; [done| |done].
    assert (m = fst (newMap RevA zeroSamples)) as -> by (by rewrite E).
    by vm_compute.
  - eexists. split; [by vm_compute|done].
Qed.

(** ** The grid over a round *)

Lemma mapAt_inGrid (m : Grid) (r c : Z) (t : TileType) :
  wf_grid m -> mapAt m r c = Some t -> inGrid r c.
Proof.
  intros [Hlen Hrows]. unfold mapAt.
  destruct ((r <? 0) || (c <? 0)) eqn:E; [done|].
  destruct (m !! Z.to_nat r) as [row|] eqn:Hrow; [|done]. simpl.
  intros Ht.
  assert (length row = Z.to_nat GRID_COLS) as Hrl.
  { rewrite Forall_forall in Hrows. apply Hrows.
    by eapply list_elem_of_lookup_2. }
  apply lookup_lt_Some in Hrow, Ht.
  unfold inGrid, GRID_ROWS, GRID_COLS in *. lia.
Qed.

Lemma tileOf_mapAt (m : Grid) (r c : Z) :
  inGrid r c -> tileOf m (c, r) = mapAt m r c.
Proof.
  intros Hin. unfold tileOf. simpl.
  apply outOfGrid_false in Hin. by rewrite Hin.
Qed.

Lemma gridAges_refl (m : Grid) : wf_grid m -> gridAges m m.
Proof. intros Hwf. split; [done|]. intros r c t Ht. by left. Qed.

Lemma gridAges_trans (m1 m2 m3 : Grid) :
  gridAges m1 m2 -> gridAges m2 m3 -> gridAges m1 m3.
Proof.
  intros [Hwf2 H12] [Hwf3 H23]. split; [done|].
  intros r c t Ht. destruct (H12 r c t Ht) as [H | [-> H]].
  - by apply H23.
  - right. split; [done|].
    destruct (H23 r c Empty H) as [H' | [? _]]; done.
Qed.

Lemma RaySpec_cells (m : Grid) center d (range : Z) (k : nat) (p : Z * Z) :
  RaySpec m center d range k -> p ∈ rayCells center d k ->
  tileOf m p = Some Empty \/ tileOf m p = Some SoftWall.
Proof.
  intros Hspec Hp. apply elem_of_rayCells in Hp as (i & Hi & ->).
  destruct (decide (i = Z.of_nat k)) as [-> | Hne].
  - apply (ray_last _ _ _ _ _ Hspec). lia.
  - left. apply (ray_open _ _ _ _ _ Hspec). lia.
Qed.

Lemma rays_cells (m : Grid) center (range : Z) (ds : list (Z * Z))
    (ks : list nat) (p : Z * Z) :
  Forall2 (fun d k => RaySpec m center d range k) ds ks ->
  p ∈ concat (zip_with (rayCells center) ds ks) ->
  tileOf m p = Some Empty \/ tileOf m p = Some SoftWall.
Proof.
  induction 1 as [|d k ds ks Hspec _ IH]; simpl.
  - intros Hp. by apply elem_of_nil in Hp.
  - intros Hp. apply elem_of_app in Hp as [Hp | Hp]; [|by apply IH].
    by eapply RaySpec_cells.
Qed.

Lemma explodeBomb_grid v (now : Z) (bomb : Bomb.t) (index : nat)
    (w w' : World) :
  wf_grid (mapRef w) ->
  explodeBomb v now bomb index w = Some w' ->
  gridAges (mapRef w) (mapRef w').
Proof.
  intros Hwf.
  destruct (castRays_spec (bombCell bomb) (Bomb.range bomb) (mapRef w) dirs
              (mapRef w)
              [(GridPos.c (bombCell bomb), GridPos.r (bombCell bomb))]
              Hwf dirs_NoDup)
    as (ks & m' & Hrun & Hspecs & Hwf' & G1 & G2); [done|done|].
  unfold explodeBomb. rewrite Hrun. cbn [mbind option_bind].
  intros [= <-]. simpl. split; [done|].
  intros r c t Ht.
  pose proof (mapAt_inGrid _ _ _ _ Hwf Ht) as Hin.
  rewrite <- !(tileOf_mapAt _ r c Hin) in *.
  destruct (decide ((c, r) ∈ concat (zip_with (rayCells (bombCell bomb))
                                       dirs ks))) as [Hp | Hp].
  - rewrite (G1 _ Hp).
    destruct (rays_cells _ _ _ _ _ _ Hspecs Hp) as [H | H];
      rewrite H in Ht; injection Ht as <-; [by left|by right].
  - left. by rewrite G2.
Qed.

Lemma bombPhase_grid v fp (dt : Q) (now : Z) (w1 w2 : World) :
  wf_grid (mapRef w1) ->
  bombPhase v fp dt now w1 = Some w2 ->
  gridAges (mapRef w1) (mapRef w2).
Proof.
  intros Hwf. unfold bombPhase.
  apply (forDown_invariant (fun s => gridAges (mapRef w1) (mapRef s)));
    [|by apply gridAges_refl].
  intros i s s' Hs. unfold bombStep.
  destruct (bombsRef s !! i) as [b|]; [|done]. cbn [mbind option_bind].
  destruct (Qle_bool _ _); [|by intros [= <-]].
  intros H. eapply gridAges_trans; [exact Hs|].
  apply explodeBomb_grid in H; [done|]. simpl. by destruct Hs.
Qed.

Lemma playerPhase_map v fp (now : Z) (w w1 : World) :
  playerPhase v fp now w = Some w1 -> mapRef w1 = mapRef w.
Proof.
  unfold playerPhase. intros H.
  destruct (desiredMove _ _ _) as [dx dy].
  destruct (moveX _ _ _ _ _ _) as [p1|]; [|done].
  cbn [mbind option_bind] in H.
  destruct (moveY _ _ _ _ _ _) as [p2|]; [|done].
  cbn [mbind option_bind] in H.
  destruct (Inputs.Space _); injection H as <-; [|done].
  destruct (placeBomb_cases now (set_player w p2))
    as [-> | (_ & b & _ & _ & _ & _ & ->)]; done.
Qed.

Lemma tick_grid v fp (dt : Q) (now : Z) (rnd : nat -> Q) (w w' : World) :
  wf_grid (mapRef w) ->
  tick v fp dt now rnd w = Some w' ->
  gridAges (mapRef w) (mapRef w').
Proof.
  intros Hwf Htick.
  destruct (decide (gameStatus w = Playing)) as [Hst | Hst];
    [|rewrite tick_not_playing in Htick by done; injection Htick as <-;
      by apply gridAges_refl].
  unfold tick in Htick.
  destruct (update _ _ _ _ _ _) as [f|] eqn:Hup; [|done].
  injection Htick as <-.
  destruct (update_playing _ _ _ _ _ _ _ Hst Hup)
    as (w1 & w2 & f3 & f4 & P1 & P2 & P3 & P4 & Hf & _).
  apply playerPhase_map in P1.
  apply bombPhase_grid in P2; [|by rewrite P1].
  apply explosionPhase_view in P3. apply enemyPhase_view in P4 as [P4 _].
  assert (mapRef (fst f) = mapRef w2) as Hm.
  { rewrite Hf. unfold hitView in *. simpl in P3. congruence. }
  unfold commit. simpl. rewrite Hm, <- P1. done.
Qed.

(** X7. A frame changes the grid only by clearing SoftWalls: the grid keeps
    its shape, and every tile is what it was before the frame or was a
    SoftWall and is now Empty.  No wall is ever created and no HardWall is
    ever removed. *)
Theorem X7_frame_only_clears_soft_walls v fp (dt : Q) (now : Z)
    (rnd : nat -> Q) (w w' : World) :
  wf_grid (mapRef w) ->
  tick v fp dt now rnd w = Some w' ->
  wf_grid (mapRef w') /\
  forall r c t, mapAt (mapRef w) r c = Some t ->
    mapAt (mapRef w') r c = Some t \/
    (t = SoftWall /\ mapAt (mapRef w') r c = Some Empty).
Proof. intros Hwf Htick. by apply (tick_grid v fp dt now rnd). Qed.

Lemma Skeleton_ages v (m m' : Grid) :
  Skeleton v m -> gridAges m m' -> Skeleton v m'.
Proof.
  intros [Hwf Hhard Hsafe] [Hwf' Hages]. constructor; [done| |].
  - intros r c Hin Hf.
    destruct (Hages r c _ (Hhard r c Hin Hf)) as [H | [? _]]; done.
  - intros r c Hin Hs.
    destruct (Hages r c _ (Hsafe r c Hin Hs)) as [H | [? _]]; done.
Qed.

Lemma newMap_Skeleton v rnd : Skeleton v (fst (newMap v rnd)).
Proof.
  pose proof (newMap_wf v rnd) as Hwf. constructor; [done| |].
  - intros r c Hin Hf. destruct (mapAt_Some _ r c Hwf Hin) as [t Ht].
    rewrite Ht. f_equal. by apply (newMap_cell _ _ _ _ _ Ht).
  - intros r c Hin Hs. destruct (mapAt_Some _ r c Hwf Hin) as [t Ht].
    rewrite Ht. f_equal. by apply (newMap_cell _ _ _ _ _ Ht).
Qed.

Lemma reachable_Skeleton v fp (w : World) :
  reachable v fp w -> gameStatus w <> Menu -> Skeleton v (mapRef w).
Proof.
  induction 1 as [|w i _ IH|w fuel rnd w' _ _ _ Hinit
                  |w dt now rnd w' _ IH _ Htick]; intros Hst.
  - done.
  - by apply IH.
  - apply initGame_map in Hinit as (-> & _). apply newMap_Skeleton.
  - destruct (decide (gameStatus w = Playing)) as [Hp | Hp].
    + assert (Skeleton v (mapRef w)) as Hs by (apply IH; congruence).
      eapply Skeleton_ages; [exact Hs|].
      eapply tick_grid; [by destruct Hs|exact Htick].
    + rewrite tick_not_playing in Htick by done. injection Htick as <-.
      by apply IH.
Qed.

(** X8. Throughout a round (every reachable state past the menu) the grid
    is 15 x 15, every border cell and every cell with even row and column
    is still a HardWall, and the three cells of the spawn safe zone are
    still Empty. *)
Theorem X8_maze_skeleton_is_permanent v fp (w : World) :
  reachable v fp w -> gameStatus w <> Menu ->
  wf_grid (mapRef w) /\
  (forall r c, inGrid r c ->
     r = 0 \/ r = GRID_ROWS - 1 \/ c = 0 \/ c = GRID_COLS - 1 \/
     (Z.even r = true /\ Z.even c = true) ->
     mapAt (mapRef w) r c = Some HardWall) /\
  mapAt (mapRef w) 1 1 = Some Empty /\
  mapAt (mapRef w) 1 2 = Some Empty /\
  mapAt (mapRef w) 2 1 = Some Empty.
Proof.
  intros Hr Hst.
  destruct (reachable_Skeleton v fp w Hr Hst) as [Hwf Hhard Hsafe].
  split; [done|]. split.
  - intros r c Hin Hcase. apply Hhard; [done|].
    unfold forcedHard.
    destruct Hcase as [-> | [-> | [-> | [-> | [He Hc]]]]];
      try (simpl; by rewrite ?orb_true_r).
    assert (Z.rem r 2 = 0 /\ Z.rem c 2 = 0) as [-> ->];
      [|simpl; by rewrite ?orb_true_r].
    destruct Hin as [Hr0 Hc0].
    rewrite !Z.rem_mod_nonneg by lia.
    rewrite Z.even_spec in He, Hc.
    destruct He as [a ->], Hc as [b ->].
    split; rewrite Z.mul_comm; apply Z_mod_mult.
  - split_and!; apply Hsafe; try (by vm_compute); by destruct v.
Qed.

(** ** The bomb loop and the explosion loop, exactly *)

Lemma drop_lookup_cons {A : Type} (l : list A) (i : nat) (x : A) :
  l !! i = Some x -> drop i l = x :: drop (S i) l.
Proof.
  revert i. induction l as [|y l IH]; intros [|i] H; try done.
  - by injection H as ->.
  - simpl in *. by apply IH.
Qed.

Lemma bombPhase_exact v fp (dt : Q) (now : Z) (w1 w2 : World) :
  bombPhase v fp dt now w1 = Some w2 ->
  bombsRef w2 = List.filter bombLive (ageBomb fp dt <$> bombsRef w1) /\
  exists new,
    explosionsRef w2 = explosionsRef w1 ++ new /\
    Forall (fun e => Explosion.timer e = EXPLOSION_DURATION_MS) new /\
    (length new + length (bombsRef w2) = length (bombsRef w1))%nat.
Proof.
  unfold bombPhase. intros Hrun.
  set (l := bombsRef w1) in *.
  apply (forDown_indexed
           (fun n s => (n <= length l)%nat /\
              bombsRef s
                = take n l ++ List.filter bombLive (ageBomb fp dt <$> drop n l)
              /\ exists new,
                explosionsRef s = explosionsRef w1 ++ new /\
                Forall (fun e => Explosion.timer e = EXPLOSION_DURATION_MS)
                       new /\
                (length new
                 + length (List.filter bombLive (ageBomb fp dt <$> drop n l))
                 = length (drop n l))%nat)) in Hrun.
  - destruct Hrun as (_ & Hbs & new & He & Hall & Hlen).
    rewrite drop_0 in *. simpl in Hbs. split; [done|].
    exists new. rewrite Hbs. done.
  - clear Hrun. intros i s s' (Hi & Hbs & new & He & Hall & Hlen).
    unfold bombStep.
    destruct (bombsRef s !! i) as [b|] eqn:Hb; [|done].
    cbn [mbind option_bind].
    destruct (aging_step l (bombsRef s) _ i b (ageBomb fp dt b)
                ltac:(lia) Hbs Hb) as (Hl & Hins & Hdel).
    rewrite (drop_lookup_cons _ _ _ Hl). cbn [fmap list_fmap List.filter].
    fold (ageBomb fp dt b).
    assert (Qle_bool (Bomb.timer (ageBomb fp dt b)) 0
            = negb (bombLive (ageBomb fp dt b))) as ->
      by (unfold bombLive; by rewrite negb_involutive).
    destruct (bombLive (ageBomb fp dt b)) eqn:Et; cbn [negb]; swap 1 2.
    + intros H. apply explodeBomb_refs in H as (Hbs' & _ & _ & _ & e & He' & Ht).
      simpl in Hbs', He'. split; [lia|]. split.
      * rewrite Hbs'. exact Hdel.
      * exists (new ++ [e]). rewrite He', He, <- app_assoc.
        split; [done|]. split; [apply Forall_app; split; [done|by constructor]|].
        rewrite length_app. simpl in *. lia.
    + intros [= <-]. simpl. split; [lia|]. split; [exact Hins|].
      exists new. split; [done|]. split; [done|]. simpl in *. lia.
  - split; [done|]. rewrite firstn_all, drop_all. simpl.
    rewrite app_nil_r. split; [done|].
    exists []. rewrite app_nil_r. split; [done|]. split; [constructor|done].
Qed.

(** X9. On a well-formed grid the bomb loop of a frame completes.  It
    keeps exactly the bombs whose timer, less the delta-time, is still
    above zero, each aged by the delta-time and in their old order; every
    other bomb detonates, and each detonation appends one explosion with
    the full [EXPLOSION_DURATION_MS]. *)
Theorem X9_bomb_loop_exact v fp (dt : Q) (now : Z) (w1 : World) :
  wf_grid (mapRef w1) ->
  exists w2 new,
    bombPhase v fp dt now w1 = Some w2 /\
    bombsRef w2 = List.filter bombLive (ageBomb fp dt <$> bombsRef w1) /\
    explosionsRef w2 = explosionsRef w1 ++ new /\
    Forall (fun e => Explosion.timer e = EXPLOSION_DURATION_MS) new /\
    (length new + length (bombsRef w2) = length (bombsRef w1))%nat.
Proof.
  intros Hwf.
  destruct (bombPhase_total v fp dt now w1 Hwf) as (w2 & Hrun & _).
  destruct (bombPhase_exact _ _ _ _ _ _ Hrun) as (Hbs & new & H).
  by exists w2, new.
Qed.

Lemma explosionPhase_exact fp (dt : Q) (f f' : Frame) :
  explosionPhase fp dt f = Some f' ->
  explosionsRef (fst f')
    = List.filter explosionLive (ageExplosion fp dt <$> explosionsRef (fst f)).
Proof.
  unfold explosionPhase. intros Hrun.
  set (l := explosionsRef (fst f)) in *.
  apply (forDown_indexed
           (fun n (s : Frame) => (n <= length l)%nat /\
              explosionsRef (fst s)
                = take n l ++
                  List.filter explosionLive (ageExplosion fp dt <$> drop n l)))
    in Hrun.
  - destruct Hrun as (_ & Hes). by rewrite drop_0 in Hes.
  - clear Hrun. intros i [s calls] s' (Hi & Hes). cbn [fst] in *.
    unfold explosionStep.
    destruct (explosionsRef s !! i) as [e|] eqn:He; [|done].
    cbn [mbind option_bind].
    destruct (aging_step l (explosionsRef s) _ i e (ageExplosion fp dt e)
                ltac:(lia) Hes He) as (Hl & Hins & Hdel).
    rewrite (drop_lookup_cons _ _ _ Hl). cbn [fmap list_fmap List.filter].
    fold (ageExplosion fp dt e).
    assert (Qle_bool (Explosion.timer (ageExplosion fp dt e)) 0
            = negb (explosionLive (ageExplosion fp dt e))) as ->
      by (unfold explosionLive; by rewrite negb_involutive).
    destruct (explosionLive (ageExplosion fp dt e)) eqn:Et; cbn [negb];
      swap 1 2.
    + intros [= <-]. simpl. split; [lia|].
      rewrite <- Hdel.
      rewrite delete_take_drop, (delete_take_drop (<[i:=_]> _)).
      rewrite take_insert_ge, drop_insert_lt by lia. done.
    + intros Hstep. split; [lia|].
      apply (forEach_invariant
               (fun t : Frame => explosionsRef (fst t)
                  = <[i:=ageExplosion fp dt e]> (explosionsRef s)))
        in Hstep; [by rewrite Hstep| |done].
      intros p t t' Ht Hp. apply particleHit_view in Hp as [_ Hp].
      congruence.
  - split; [done|]. rewrite firstn_all, drop_all. simpl.
    by rewrite app_nil_r.
Qed.

Lemma explosionStep_expired fp (dt : Q) (i : nat) (w : World)
    (calls : list GameStatus) (e : Explosion.t) :
  explosionsRef w !! i = Some e ->
  (fsub fp (Explosion.timer e) dt <= 0)%Q ->
  explosionStep fp dt i (w, calls)
  = Some (set_explosions w (delete i (explosionsRef w)), calls).
Proof.
  intros He Ht. unfold explosionStep. rewrite He. cbn [mbind option_bind].
  assert (Qle_bool (Explosion.timer
                      (Explosion.set_timer e (fsub fp (Explosion.timer e) dt))) 0
          = true) as ->; [|done].
  by apply Qle_bool_iff.
Qed.

Lemma explosionPhase_all_expired fp (dt : Q) (w : World)
    (calls : list GameStatus) :
  Forall (fun e => (fsub fp (Explosion.timer e) dt <= 0)%Q)
         (explosionsRef w) ->
  explosionPhase fp dt (w, calls) = Some (set_explosions w [], calls).
Proof.
  intros Hall. unfold explosionPhase. cbn [fst].
  set (l := explosionsRef w) in *.
  assert (forall n, (n <= length l)%nat ->
            forDown n (explosionStep fp dt) (set_explosions w (take n l), calls)
            = Some (set_explosions w [], calls)) as Hloop.
  { induction n as [|n IH]; intros Hn; [done|].
    cbn [forDown].
    destruct (lookup_lt_is_Some_2 l n ltac:(lia)) as [e He].
    rewrite (explosionStep_expired fp dt n _ calls e).
    - cbn [mbind option_bind explosionsRef set_explosions].
      replace (delete n (take (S n) l)) with (take n l).
      + replace (set_explosions (set_explosions w (take (S n) l)) (take n l))
          with (set_explosions w (take n l)) by done.
        apply IH. lia.
      + rewrite (take_S_r _ _ _ He).
        assert (length (take n l) = n) as Hlen by (rewrite length_take; lia).
        rewrite <- Hlen at 2. by rewrite delete_middle, app_nil_r.
    - cbn [explosionsRef set_explosions]. rewrite lookup_take_lt by lia.
      exact He.
    - rewrite Forall_forall in Hall. apply Hall.
      by eapply list_elem_of_lookup_2. }
  specialize (Hloop (length l) ltac:(done)).
  rewrite firstn_all in Hloop.
  replace (set_explosions w l) with w in Hloop by (by destruct w).
  exact Hloop.
Qed.

(** X10. The explosion loop always completes and keeps exactly the
    explosions whose timer, less the delta-time, is still above zero, aged
    and in order.  When no timer less the delta-time is above zero the
    loop only empties the list: no hit test runs, so nobody is hurt; this
    also holds for an explosion made earlier in the same frame. *)
Theorem X10_explosion_loop_exact fp (dt : Q) (w : World)
    (calls : list GameStatus) :
  (exists f',
     explosionPhase fp dt (w, calls) = Some f' /\
     explosionsRef (fst f')
       = List.filter explosionLive
                     (ageExplosion fp dt <$> explosionsRef w)) /\
  (Forall (fun e => (fsub fp (Explosion.timer e) dt <= 0)%Q)
          (explosionsRef w) ->
   explosionPhase fp dt (w, calls) = Some (set_explosions w [], calls)).
Proof.
  split.
  - destruct (explosionPhase_total fp dt (w, calls)) as [f' H].
    exists f'. split; [done|]. by apply explosionPhase_exact in H.
  - apply explosionPhase_all_expired.
Qed.

(** ** Inputs and round status after a frame *)

Lemma moveX_alive v fp (m : Grid) (bs : list Bomb.t) (p p' : Player.t)
    (dx : Q) :
  moveX v fp m bs p dx = Some p' -> Player.alive p' = Player.alive p.
Proof.
  unfold moveX. intros H.
  repeat (case_match; simplify_option_eq); done.
Qed.

Lemma moveY_alive v fp (m : Grid) (bs : list Bomb.t) (p p' : Player.t)
    (dy : Q) :
  moveY v fp m bs p dy = Some p' -> Player.alive p' = Player.alive p.
Proof.
  unfold moveY. intros H.
  repeat (case_match; simplify_option_eq); done.
Qed.

Lemma playerPhase_inputs v fp (now : Z) (w w1 : World) :
  playerPhase v fp now w = Some w1 ->
  inputsRef w1 = Inputs.clear_Space (inputsRef w) /\
  Player.alive (playerRef w1) = Player.alive (playerRef w) /\
  gameStatus w1 = gameStatus w /\
  (length (bombsRef w1) <= length (bombsRef w) + 1)%nat /\
  (Inputs.Space (inputsRef w) = false -> bombsRef w1 = bombsRef w).
Proof.
  unfold playerPhase. intros H.
  destruct (desiredMove _ _ _) as [dx dy].
  destruct (moveX _ _ _ _ _ _) as [p1|] eqn:E1; [|done].
  cbn [mbind option_bind] in H.
  destruct (moveY _ _ _ _ _ _) as [p2|] eqn:E2; [|done].
  cbn [mbind option_bind] in H.
  assert (Player.alive p2 = Player.alive (playerRef w)) as Halive.
  { apply moveX_alive in E1. apply moveY_alive in E2. congruence. }
  cbn [inputsRef set_player] in H.
  destruct (Inputs.Space (inputsRef w)) eqn:Es; injection H as <-.
  - destruct (placeBomb_cases now (set_player w p2))
      as [-> | (_ & b & _ & _ & _ & _ & ->)]; simpl;
      rewrite ?length_app; simpl; split_and!; try done; lia.
  - simpl. split_and!; try done; [|lia].
    destruct (inputsRef w). simpl in *. by subst.
Qed.

Lemma bombPhase_inputs v fp (dt : Q) (now : Z) (w1 w2 : World) :
  bombPhase v fp dt now w1 = Some w2 ->
  inputsRef w2 = inputsRef w1 /\
  Player.alive (playerRef w2) = Player.alive (playerRef w1) /\
  gameStatus w2 = gameStatus w1.
Proof.
  unfold bombPhase.
  apply (forDown_invariant
           (fun s => inputsRef s = inputsRef w1 /\
                     Player.alive (playerRef s) = Player.alive (playerRef w1)
                     /\ gameStatus s = gameStatus w1)); [|done].
  intros i s s' (Hi & Ha & Hs). unfold bombStep.
  destruct (bombsRef s !! i) as [b|]; [|done]. cbn [mbind option_bind].
  destruct (Qle_bool _ _); [|by intros [= <-]].
  unfold explodeBomb. destruct (castRays _ _ _ _ _) as [[m' ps]|]; [|done].
  intros [= <-]. simpl. split_and!; try done.
  by destruct (decrementsCount _ _).
Qed.

(** X11. The bomb key is single-shot.  After a frame of a round in play
    the [Space] flag is off and the arrow flags are as they were; the
    frame adds at most one bomb, and none when [Space] was off. *)
Theorem X11_space_is_consumed v fp (dt : Q) (now : Z) (rnd : nat -> Q)
    (w w' : World) :
  gameStatus w = Playing ->
  tick v fp dt now rnd w = Some w' ->
  inputsRef w' = Inputs.clear_Space (inputsRef w) /\
  (length (bombsRef w') <= length (bombsRef w) + 1)%nat /\
  (Inputs.Space (inputsRef w) = false ->
   (length (bombsRef w') <= length (bombsRef w))%nat).
Proof.
  intros Hst Htick. unfold tick in Htick.
  destruct (update _ _ _ _ _ _) as [f|] eqn:Hup; [|done].
  injection Htick as <-.
  destruct (update_playing _ _ _ _ _ _ _ Hst Hup)
    as (w1 & w2 & f3 & f4 & P1 & P2 & P3 & P4 & Hf & _).
  apply playerPhase_inputs in P1 as (I1 & _ & _ & L1 & S1).
  pose proof (bombPhase_inputs _ _ _ _ _ _ P2) as (I2 & _).
  apply bombPhase_exact in P2 as (_ & new & _ & _ & L2).
  apply explosionPhase_view in P3. apply enemyPhase_view in P4 as [P4 _].
  assert (hitView (fst f) = hitView w2) as V
    by (rewrite Hf; simpl in P3; congruence).
  unfold hitView in V. injection V as _ Hb _ Hi _.
  unfold commit. simpl. rewrite Hb, Hi, I2, I1.
  split; [done|]. split; [lia|].
  intros Hs. rewrite (S1 Hs) in L2. lia.
Qed.

Lemma burnEnemy_player (p : Particle.t) (ei : nat) (w w' : World) :
  burnEnemy p ei w = Some w' -> playerRef w' = playerRef w.
Proof.
  unfold burnEnemy. intros H.
  destruct (enemiesRef w !! ei); [|done]. simpl in H.
  destruct (_ && _); by injection H as <-.
Qed.

Lemma burnLoop_player (p : Particle.t) (n : nat) (w w' : World) :
  forDown n (burnEnemy p) w = Some w' -> playerRef w' = playerRef w.
Proof.
  apply (forDown_invariant (fun s => playerRef s = playerRef w)); [|done].
  intros i s s' Hs Hb. apply burnEnemy_player in Hb. congruence.
Qed.

Lemma particleHit_lostCalls (p : Particle.t) (f f' : Frame) :
  lostCalls f -> particleHit p f = Some f' -> lostCalls f'.
Proof.
  destruct f as [w calls]. unfold particleHit, lostCalls. cbn [fst snd].
  intros [Hall Hiff].
  destruct (_ && _);
    (destruct (forDown _ _ _) as [w2|] eqn:E; [|done]);
    intros [= <-]; cbn [fst snd];
    apply burnLoop_player in E; rewrite E; simpl.
  - split; [apply Forall_app; split; [done|by constructor]|].
    split; [intros _; by destruct calls|done].
  - done.
Qed.

Lemma explosionPhase_lostCalls fp (dt : Q) (f f' : Frame) :
  lostCalls f -> explosionPhase fp dt f = Some f' -> lostCalls f'.
Proof.
  unfold explosionPhase.
  apply (forDown_invariant lostCalls).
  intros i [s calls] s' Hs. unfold explosionStep.
  destruct (explosionsRef s !! i) as [e|]; [|done].
  cbn [mbind option_bind].
  destruct (Qle_bool _ _); [by intros [= <-]|].
  apply (forEach_invariant lostCalls); [|done].
  intros p t t'. apply particleHit_lostCalls.
Qed.

Lemma enemyStep_lostCalls v fp rnd (m : Grid) (bs : list Bomb.t)
    (e : Enemy.t) (s s' : EnemyLoop) :
  enemyStep v fp rnd m bs e s = Some s' ->
  Forall (fun c => c = Lost) (el_calls s) /\
  (Player.alive (el_player s) = false <-> el_calls s <> []) ->
  Forall (fun c => c = Lost) (el_calls s') /\
  (Player.alive (el_player s') = false <-> el_calls s' <> []).
Proof.
  unfold enemyStep. intros H [Hall Hiff].
  destruct (Qltb (fhypot _ _ _) _);
    simplify_option_eq; repeat (case_match; simplify_option_eq);
    simpl; try done;
    (split; [apply Forall_app; split; [done|by constructor]|]);
    (split; [intros _; by destruct (el_calls s)|done]).
Qed.

Lemma enemyPhase_lostCalls v fp rnd (f f' : Frame) :
  lostCalls f -> enemyPhase v fp rnd f = Some f' -> lostCalls f'.
Proof.
  destruct f as [w calls]. unfold enemyPhase, lostCalls. cbn [fst snd].
  intros Hf H.
  destruct (forEach _ _ _) as [s|] eqn:E; [|done].
  injection H as <-. cbn [fst snd playerRef set_enemies set_player].
  revert E.
  apply (forEach_invariant
           (fun s => Forall (fun c => c = Lost) (el_calls s) /\
              (Player.alive (el_player s) = false <-> el_calls s <> [])));
    [|done].
  intros x s1 s2 Hs Hx. by eapply enemyStep_lostCalls.
Qed.

Lemma last_all_Lost (calls : list GameStatus) (d : GameStatus) :
  Forall (fun c => c = Lost) calls -> calls <> [] -> List.last calls d = Lost.
Proof.
  induction calls as [|c calls IH]; [done|].
  intros Hall _. apply Forall_cons in Hall as [-> Hall].
  destruct calls as [|c' calls]; [done|].
  change (List.last (c' :: calls) d = Lost). by apply IH.
Qed.

Lemma tick_status v fp (dt : Q) (now : Z)
    (rnd : nat -> Q) (w w' : World) :
  gameStatus w = Playing ->
  Player.alive (playerRef w) = true ->
  tick v fp dt now rnd w = Some w' ->
  gameStatus w' =
    if Nat.eqb (length (enemiesRef w')) 0 then Won
    else if Player.alive (playerRef w') then Playing
    else Lost.
Proof.
  intros Hst Halive Htick. unfold tick in Htick.
  destruct (update _ _ _ _ _ _) as [f|] eqn:Hup; [|done].
  injection Htick as <-.
  destruct (update_playing _ _ _ _ _ _ _ Hst Hup)
    as (w1 & w2 & f3 & f4 & P1 & P2 & P3 & P4 & Hf & Hcalls).
  apply playerPhase_inputs in P1 as (_ & A1 & S1 & _).
  apply bombPhase_inputs in P2 as (_ & A2 & S2).
  assert (gameStatus (fst f4) = Playing) as S4.
  { pose proof (explosionPhase_view _ _ _ _ P3) as V3.
    pose proof (enemyPhase_view _ _ _ _ _ P4) as [V4 _].
    unfold hitView in V3, V4. simpl in V3. congruence. }
  assert (lostCalls (w2, [])) as L2.
  { split; [constructor|]. simpl. split; [congruence|done]. }
  pose proof (explosionPhase_lostCalls _ _ _ _ L2 P3) as L3.
  pose proof (enemyPhase_lostCalls _ _ _ _ _ L3 P4) as [Hall Hiff].
  unfold commit. simpl. rewrite Hcalls, Hf.
  destruct (Nat.eqb _ _).
  - by rewrite last_last.
  - destruct (Player.alive (playerRef (fst f4))) eqn:Ea.
    + destruct (snd f4) as [|c cs] eqn:Ec; [done|].
      destruct Hiff as [_ Hiff]. by specialize (Hiff ltac:(done)).
    + apply last_all_Lost; [done|]. by apply Hiff.
Qed.

(** X12. The status after a frame of a round in play, the player having
    been alive before it: [Won] when no enemy is left, else [Lost] when the
    player is dead, else still [Playing].  So an empty enemy list wins the
    round whatever happened to the player, and the round never goes back
    to the menu. *)
Theorem X12_status_after_a_frame v fp (dt : Q) (now : Z)
    (rnd : nat -> Q) (w w' : World) :
  gameStatus w = Playing ->
  Player.alive (playerRef w) = true ->
  tick v fp dt now rnd w = Some w' ->
  gameStatus w' =
    if Nat.eqb (length (enemiesRef w')) 0 then Won
    else if Player.alive (playerRef w') then Playing
    else Lost.
Proof. apply tick_status. Qed.

Lemma reachable_StatusInv v fp (w : World) :
  reachable v fp w -> StatusInv w.
Proof.
  induction 1 as [|w i _ IH|w fuel rnd w' _ _ _ Hinit
                  |w dt now rnd w' _ IH _ Htick].
  - by constructor.
  - destruct IH. by constructor.
  - apply initGame_map in Hinit as (_ & Hs & _ & _ & Hp & _).
    constructor; rewrite Hs, ?Hp; done.
  - destruct (decide (gameStatus w = Playing)) as [Hst | Hst];
      [|rewrite tick_not_playing in Htick by done; by injection Htick as <-].
    pose proof (tick_status _ _ _ _ _ _ _ Hst (st_playing _ IH Hst) Htick)
      as Hs.
    constructor; rewrite Hs;
      destruct (enemiesRef w') as [|e es]; simpl;
      destruct (Player.alive (playerRef w')); done.
Qed.

(** X13. In every reachable state the status and the entities agree: while
    the round is [Playing] the player is alive; a [Lost] round has a dead
    player and at least one enemy left; a [Won] round has no enemy left. *)
Theorem X13_status_matches_entities v fp (w : World) :
  reachable v fp w ->
  (gameStatus w = Playing -> Player.alive (playerRef w) = true) /\
  (gameStatus w = Lost ->
   Player.alive (playerRef w) = false /\ enemiesRef w <> []) /\
  (gameStatus w = Won -> enemiesRef w = []).
Proof. intros Hr. by destruct (reachable_StatusInv v fp w Hr). Qed.

(** ** The hit test, exactly *)

Lemma filter_filter {A : Type} (f g : A -> bool) (l : list A) :
  List.filter f (List.filter g l)
  = List.filter (fun x => g x && f x) l.
Proof.
  induction l as [|x l IH]; [done|]. simpl.
  destruct (g x); simpl; [|done]. destruct (f x); by rewrite IH.
Qed.

Lemma filter_ext_all {A : Type} (f g : A -> bool) (l : list A) :
  (forall x, f x = g x) -> List.filter f l = List.filter g l.
Proof.
  intros H. induction l as [|x l IH]; [done|]. simpl.
  by rewrite H, IH.
Qed.

Lemma filter_true {A : Type} (l : list A) :
  List.filter (fun _ => true) l = l.
Proof. induction l as [|x l IH]; [done|]. simpl. by rewrite IH. Qed.

Lemma delete_at_length {A : Type} (l1 l2 : list A) (x : A) (i : nat) :
  length l1 = i -> delete i (l1 ++ x :: l2) = l1 ++ l2.
Proof. intros <-. apply delete_middle. Qed.

Lemma burnLoop_exact (p : Particle.t) (w w' : World) :
  forDown (length (enemiesRef w)) (burnEnemy p) w = Some w' ->
  w' = set_enemies w
         (List.filter (fun e => negb (particleAt p (enemyCell e)))
                      (enemiesRef w)).
Proof.
  set (l := enemiesRef w).
  set (keep := fun e => negb (particleAt p (enemyCell e))).
  intros Hrun.
  apply (forDown_indexed
           (fun n s => (n <= length l)%nat /\
              s = set_enemies w (take n l ++ List.filter keep (drop n l))))
    in Hrun.
  - destruct Hrun as [_ ->]. by rewrite drop_0.
  - clear Hrun. intros i s s' [Hi ->]. unfold burnEnemy.
    cbn [enemiesRef set_enemies].
    destruct (lookup_lt_is_Some_2 l i ltac:(lia)) as [e He].
    assert (length (take i l) = i) as Hlen by (rewrite length_take; lia).
    rewrite (take_S_r _ _ _ He), <- app_assoc.
    rewrite lookup_app_r, Hlen, Nat.sub_diag by lia.
    cbn [app lookup list_lookup mbind option_bind].
    rewrite (drop_lookup_cons _ _ _ He). cbn [List.filter].
    unfold keep. fold (particleAt p (enemyCell e)).
    destruct (particleAt p (enemyCell e)); cbn [negb];
      intros [= Hs]; subst s'; (split; [lia|]); [|done].
    cbn [set_enemies enemiesRef mapRef playerRef bombsRef explosionsRef
         gameStatus inputsRef].
    by rewrite (delete_at_length _ _ _ _ Hlen).
  - split; [done|]. subst l. rewrite firstn_all, drop_all. simpl.
    rewrite app_nil_r. by destruct w.
Qed.

(** One particle: the player is marked dead when on it, and the enemies on
    it are removed. *)
Lemma particleHit_exact (p : Particle.t) (w : World)
    (calls : list GameStatus) (f' : Frame) :
  particleHit p (w, calls) = Some f' ->
  enemiesRef (fst f')
    = List.filter (fun e => negb (particleAt p (enemyCell e)))
                  (enemiesRef w) /\
  Player.alive (playerRef (fst f'))
    = Player.alive (playerRef w) && negb (particleAt p (playerCell w)) /\
  playerCell (fst f') = playerCell w.
Proof.
  unfold particleHit, playerCell.
  fold (particleAt p (getGridPos (Player.x (playerRef w))
                                 (Player.y (playerRef w)))).
  destruct (particleAt p _);
    (destruct (forDown _ _ _) as [w2|] eqn:E; [|done]);
    intros [= <-]; apply burnLoop_exact in E; subst w2; simpl;
    split_and!; try done.
  - by rewrite andb_false_r.
  - by rewrite andb_true_r.
Qed.

Lemma particles_exact (ps : list Particle.t) :
  forall (w : World) (calls : list GameStatus) (f' : Frame),
  forEach particleHit ps (w, calls) = Some f' ->
  enemiesRef (fst f')
    = List.filter (fun e => negb (anyParticleAt ps (enemyCell e)))
                  (enemiesRef w) /\
  Player.alive (playerRef (fst f'))
    = Player.alive (playerRef w) && negb (anyParticleAt ps (playerCell w)) /\
  playerCell (fst f') = playerCell w.
Proof.
  induction ps as [|p ps IH]; intros w calls f'; cbn [forEach].
  - intros [= <-]. simpl. rewrite filter_true, andb_true_r. by split_and!.
  - destruct (particleHit p (w, calls)) as [[w1 calls1]|] eqn:E;
      cbn [mbind option_bind]; [|done].
    apply particleHit_exact in E as (He & Ha & Hc). cbn [fst] in *.
    intros H. apply IH in H as (He' & Ha' & Hc').
    rewrite He', Ha', Hc', He, Ha, Hc. split_and!; try done.
    + rewrite filter_filter. apply filter_ext_all. intros e.
      unfold anyParticleAt. cbn [existsb]. by rewrite negb_orb.
    + unfold anyParticleAt. cbn [existsb]. by rewrite negb_orb, andb_assoc.
Qed.

Lemma burning_cons (e : Explosion.t) (exps : list Explosion.t)
    (g : GridPos.t) :
  burning (e :: exps) g
  = anyParticleAt (Explosion.particles e) g || burning exps g.
Proof. done. Qed.

Lemma explosionPhase_hits fp (dt : Q) (w : World) (calls : list GameStatus)
    (f' : Frame) :
  explosionPhase fp dt (w, calls) = Some f' ->
  let live := explosionsRef (fst f') in
  live = List.filter explosionLive (ageExplosion fp dt <$> explosionsRef w) /\
  enemiesRef (fst f')
    = List.filter (fun e => negb (burning live (enemyCell e)))
                  (enemiesRef w) /\
  Player.alive (playerRef (fst f'))
    = Player.alive (playerRef w) && negb (burning live (playerCell w)).
Proof.
  unfold explosionPhase. cbn [fst]. intros Hrun.
  set (l := explosionsRef w) in *.
  set (L := fun n => List.filter explosionLive (ageExplosion fp dt <$> drop n l)).
  apply (forDown_indexed
           (fun n (s : Frame) => (n <= length l)%nat /\
              explosionsRef (fst s) = take n l ++ L n /\
              enemiesRef (fst s)
                = List.filter (fun e => negb (burning (L n) (enemyCell e)))
                              (enemiesRef w) /\
              Player.alive (playerRef (fst s))
                = Player.alive (playerRef w)
                  && negb (burning (L n) (playerCell w)) /\
              playerCell (fst s) = playerCell w)) in Hrun.
  - destruct Hrun as (_ & Hes & Hen & Ha & _). unfold L in *.
    rewrite drop_0 in *. simpl in Hes. cbn zeta. rewrite Hes. done.
  - clear Hrun. intros i [s sc] s' (Hi & Hes & Hen & Ha & Hc).
    cbn [fst] in *. unfold explosionStep.
    destruct (explosionsRef s !! i) as [e|] eqn:He; [|done].
    cbn [mbind option_bind].
    destruct (aging_step l (explosionsRef s) _ i e (ageExplosion fp dt e)
                ltac:(lia) Hes He) as (Hl & Hins & Hdel).
    assert (L i = if explosionLive (ageExplosion fp dt e)
                  then ageExplosion fp dt e :: L (S i) else L (S i)) as HL.
    { unfold L. by rewrite (drop_lookup_cons _ _ _ Hl). }
    fold (ageExplosion fp dt e).
    assert (Qle_bool (Explosion.timer (ageExplosion fp dt e)) 0
            = negb (explosionLive (ageExplosion fp dt e))) as ->
      by (unfold explosionLive; by rewrite negb_involutive).
    rewrite HL.
    destruct (explosionLive (ageExplosion fp dt e)) eqn:Et; cbn [negb].
    + intros Hstep. 
      pose proof Hstep as Hexp.
      apply (forEach_invariant
               (fun t : Frame => explosionsRef (fst t)
                  = <[i:=ageExplosion fp dt e]> (explosionsRef s)))
        in Hexp; [|intros p t t' Ht Hp;
                    apply particleHit_view in Hp as [_ Hp]; congruence|done].
      apply particles_exact in Hstep as (Hen' & Ha' & Hc').
      cbn [fst enemiesRef playerRef set_explosions] in Hen', Ha'.
      unfold playerCell in Hc' at 2. cbn [playerRef set_explosions] in Hc'.
      fold (playerCell s) in Hc'.
      unfold playerCell in Ha' at 1. cbn [playerRef set_explosions] in Ha'.
      fold (playerCell s) in Ha'.
      split; [lia|]. split; [by rewrite Hexp, Hins|].
      split_and!.
      * rewrite Hen', Hen, filter_filter. apply filter_ext_all. intros x.
        by rewrite burning_cons, negb_orb, andb_comm.
      * rewrite Ha', Ha, Hc, burning_cons, negb_orb, <- andb_assoc.
        f_equal. apply andb_comm.
      * congruence.
    + intros [= <-]. cbn [fst explosionsRef enemiesRef playerRef
                          set_explosions].
      split; [lia|]. split_and!; try done.
      rewrite <- Hdel.
      rewrite delete_take_drop, (delete_take_drop (<[i:=_]> _)).
      rewrite take_insert_ge, drop_insert_lt by lia. done.
  - split; [done|]. unfold L. rewrite firstn_all, drop_all. simpl.
    rewrite app_nil_r, filter_true, andb_true_r. by split_and!.
Qed.

(** X14. The hit test of a frame, exactly.  The explosion loop always
    completes.  After it the
    enemies left are exactly the old ones whose cell holds no particle of
    an explosion that is still active, in their old order, and the player
    is alive exactly when it was alive and its cell holds no such
    particle. *)
Theorem X14_hit_test_exact fp (dt : Q) (w : World)
    (calls : list GameStatus) :
  exists f' : Frame,
    let live := explosionsRef (fst f') in
    explosionPhase fp dt (w, calls) = Some f' /\
    live
      = List.filter explosionLive (ageExplosion fp dt <$> explosionsRef w) /\
    enemiesRef (fst f')
      = List.filter (fun e => negb (burning live (enemyCell e)))
                    (enemiesRef w) /\
    Player.alive (playerRef (fst f'))
      = Player.alive (playerRef w) && negb (burning live (playerCell w)).
Proof.
  destruct (explosionPhase_total fp dt (w, calls)) as [f' H].
  exists f'. cbn zeta. split; [done|]. by apply explosionPhase_hits in H.
Qed.

(** ** The enemy loop *)

Lemma enemyStep_exact v fp rnd (m : Grid) (bs : list Bomb.t)
    (e : Enemy.t) (s s' : EnemyLoop) :
  enemyStep v fp rnd m bs e s = Some s' ->
  exists e',
    stepped s' = stepped s ++ [e'] /\
    Enemy.id e' = Enemy.id e /\ Enemy.width e' = Enemy.width e /\
    Enemy.height e' = Enemy.height e /\ Enemy.speed e' = Enemy.speed e /\
    Player.alive (el_player s')
      = Player.alive (el_player s)
        && negb (touches fp (Player.x (el_player s))
                         (Player.y (el_player s)) e) /\
    Player.x (el_player s') = Player.x (el_player s) /\
    Player.y (el_player s') = Player.y (el_player s).
Proof.
  unfold enemyStep, touches. intros H.
  destruct (Qltb (fhypot _ _ _) _);
    simplify_option_eq; repeat (case_match; simplify_option_eq);
    eexists; (split; [reflexivity|]); simpl;
    rewrite ?andb_false_r, ?andb_true_r; by split_and!.
Qed.

Lemma enemyLoop_exact v fp rnd (m : Grid) (bs : list Bomb.t)
    (es : list Enemy.t) :
  forall (s s' : EnemyLoop),
  forEach (enemyStep v fp rnd m bs) es s = Some s' ->
  exists es',
    stepped s' = stepped s ++ es' /\
    Forall2 (fun e e' =>
               Enemy.id e' = Enemy.id e /\ Enemy.width e' = Enemy.width e /\
               Enemy.height e' = Enemy.height e /\
               Enemy.speed e' = Enemy.speed e) es es' /\
    Player.alive (el_player s')
      = Player.alive (el_player s)
        && negb (existsb (touches fp (Player.x (el_player s))
                                  (Player.y (el_player s))) es) /\
    Player.x (el_player s') = Player.x (el_player s) /\
    Player.y (el_player s') = Player.y (el_player s).
Proof.
  induction es as [|e es IH]; intros s s'; cbn [forEach].
  - intros [= <-]. exists []. simpl.
    rewrite app_nil_r, andb_true_r. by split_and!.
  - destruct (enemyStep _ _ _ _ _ e s) as [s1|] eqn:E;
      cbn [mbind option_bind]; [|done].
    apply enemyStep_exact in E
      as (e' & Hst & Hid & Hw & Hh & Hsp & Ha & Hx & Hy).
    intros H. apply IH in H as (es' & Hst' & Hall & Ha' & Hx' & Hy').
    exists (e' :: es'). rewrite Hst', Hst, <- app_assoc.
    split; [done|]. split; [by constructor|].
    rewrite Ha', Hx', Hy', Ha, Hx, Hy. cbn [existsb].
    rewrite negb_orb, andb_assoc. by split_and!.
Qed.

Lemma enemyPhase_exact v fp rnd (w : World)
    (calls : list GameStatus) (f' : Frame) :
  enemyPhase v fp rnd (w, calls) = Some f' ->
  Forall2 (fun e e' =>
             Enemy.id e' = Enemy.id e /\ Enemy.width e' = Enemy.width e /\
             Enemy.height e' = Enemy.height e /\
             Enemy.speed e' = Enemy.speed e)
          (enemiesRef w) (enemiesRef (fst f')) /\
  Player.alive (playerRef (fst f'))
    = Player.alive (playerRef w)
      && negb (existsb (touches fp (Player.x (playerRef w))
                                (Player.y (playerRef w))) (enemiesRef w)).
Proof.
  unfold enemyPhase. intros H.
  destruct (forEach _ _ _) as [s|] eqn:E; [|done].
  injection H as <-. cbn [fst enemiesRef playerRef set_enemies set_player].
  apply enemyLoop_exact in E as (es' & Hst & Hall & Ha & _).
  simpl in Hst, Ha. by rewrite Hst, Ha.
Qed.

(** X15. On a well-formed grid and with samples in [0, 1) the enemy loop
    completes.  It neither adds nor removes an enemy and keeps each one's
    id, hitbox and speed.  It marks the player dead exactly when some
    enemy, at the position it had when the loop began, is closer than 0.7
    tiles to the player; a blast is not needed for that. *)
Theorem X15_enemy_loop_contact v fp rnd (w : World)
    (calls : list GameStatus) :
  wf_grid (mapRef w) ->
  unitSamples rnd ->
  exists f' : Frame,
    enemyPhase v fp rnd (w, calls) = Some f' /\
    Forall2 (fun e e' =>
               Enemy.id e' = Enemy.id e /\ Enemy.width e' = Enemy.width e /\
               Enemy.height e' = Enemy.height e /\
               Enemy.speed e' = Enemy.speed e)
            (enemiesRef w) (enemiesRef (fst f')) /\
    Player.alive (playerRef (fst f'))
      = Player.alive (playerRef w)
        && negb (existsb (touches fp (Player.x (playerRef w))
                                  (Player.y (playerRef w))) (enemiesRef w)).
Proof.
  intros Hwf Hrnd.
  destruct (enemyPhase_total v fp rnd (w, calls) Hwf Hrnd) as [f' H].
  exists f'. split; [done|]. by apply enemyPhase_exact in H.
Qed.

(** ** No enemy is ever inside a wall *)

Lemma rectFree_ages (m m' : Grid) (rect : Rect.t) :
  rectFree m rect -> gridAges m m' -> rectFree m' rect.
Proof.
  intros Hfree [_ Hages] r c Hc. destruct (Hfree r c Hc) as [Hin Ht].
  split; [done|]. destruct (Hages r c _ Ht) as [H | [? _]]; done.
Qed.

Lemma isCollision_false_free (m : Grid) (bs : list Bomb.t)
    (targetX targetY w h currentX currentY : Q) :
  wf_grid m ->
  isCollision m bs targetX targetY w h currentX currentY = Some false ->
  rectFree m (entityRect targetX targetY w h).
Proof.
  intros Hwf. unfold isCollision.
  destruct (scanWalls_result m (entityRect targetX targetY w h) Hwf)
    as [-> | [-> Hall]]; simpl; [done|]. by intros _.
Qed.

(** A hitbox centered on a tile covers that tile and no other. *)
Lemma tile_center_rect (r c r' c' : Z) :
  covers (entityRect (inject_Z c * TILE_SIZE + TILE_SIZE / 2)
                     (inject_Z r * TILE_SIZE + TILE_SIZE / 2)
                     HITBOX_SIZE HITBOX_SIZE) r' c' ->
  r' = r /\ c' = c.
Proof.
  unfold covers, cellTop, cellBottom, cellLeft, cellRight, entityRect.
  cbn [Rect.x Rect.y Rect.w Rect.h].
  assert (forall z : Z,
            Qfloor ((inject_Z z * TILE_SIZE + TILE_SIZE / 2
                     - HITBOX_SIZE / 2) / TILE_SIZE) = z) as H1.
  { intros z. apply Qfloor_tile. unfold TILE_SIZE, HITBOX_SIZE, Qdiv.
    change (/ 2)%Q with (1 # 2)%Q. split; lra. }
  assert (forall z : Z,
            Qfloor ((inject_Z z * TILE_SIZE + TILE_SIZE / 2
                     - HITBOX_SIZE / 2 + HITBOX_SIZE - (1 # 100))
                    / TILE_SIZE) = z) as H2.
  { intros z. apply Qfloor_tile. unfold TILE_SIZE, HITBOX_SIZE, Qdiv.
    change (/ 2)%Q with (1 # 2)%Q. split; lra. }
  rewrite !H1, !H2. lia.
Qed.

Lemma spawnedOn_free (m : Grid) (e : Enemy.t) :
  wf_grid m -> spawnedOn m e -> rectFree m (enemyRect e).
Proof.
  intros Hwf (r & c & ident & -> & Ht & _) r' c' Hc.
  apply tile_center_rect in Hc as [-> ->].
  split; [by eapply mapAt_inGrid|done].
Qed.

Lemma enemyStep_free v fp rnd (m : Grid) (bs : list Bomb.t)
    (e : Enemy.t) (s s' : EnemyLoop) :
  wf_grid m -> rectFree m (enemyRect e) ->
  enemyStep v fp rnd m bs e s = Some s' ->
  exists e', stepped s' = stepped s ++ [e'] /\ rectFree m (enemyRect e').
Proof.
  intros Hwf Hfree. unfold enemyStep.
  destruct (Qltb (fhypot _ _ _) _);
    (destruct (isCollision _ _ _ _ _ _ _ _) as [[|]|] eqn:Ec;
     cbn [mbind option_bind]; [| |done]);
    try (apply (isCollision_false_free _ _ _ _ _ _ _ _ Hwf) in Ec);
    intros H; simplify_option_eq; repeat (case_match; simplify_option_eq);
    eexists; (split; [reflexivity|]); done.
Qed.

Lemma enemyPhase_free v fp rnd (f f' : Frame) :
  wf_grid (mapRef (fst f)) ->
  Forall (fun e => rectFree (mapRef (fst f)) (enemyRect e))
         (enemiesRef (fst f)) ->
  enemyPhase v fp rnd f = Some f' ->
  Forall (fun e => rectFree (mapRef (fst f')) (enemyRect e))
         (enemiesRef (fst f')).
Proof.
  destruct f as [w calls]. cbn [fst]. intros Hwf Hall. unfold enemyPhase.
  destruct (forEach _ _ _) as [s|] eqn:E; [|done].
  intros [= <-]. cbn [fst enemiesRef mapRef set_enemies set_player].
  revert E.
  apply (forEach_elements
           (fun s => Forall (fun e => rectFree (mapRef w) (enemyRect e))
                            (stepped s))); [|constructor].
  intros e s1 s2 He Hs Hstep.
  rewrite Forall_forall in Hall.
  apply (enemyStep_free _ _ _ _ _ _ _ _ Hwf (Hall e He)) in Hstep
    as (e' & -> & Hfree).
  apply Forall_app. split; [done|]. by constructor.
Qed.

Lemma tick_enemiesFree v fp (dt : Q) (now : Z) (rnd : nat -> Q)
    (w w' : World) :
  wf_grid (mapRef w) -> enemiesFree w ->
  tick v fp dt now rnd w = Some w' -> enemiesFree w'.
Proof.
  intros Hwf Hfree Htick.
  destruct (decide (gameStatus w = Playing)) as [Hst | Hst];
    [|rewrite tick_not_playing in Htick by done; by injection Htick as <-].
  unfold tick in Htick.
  destruct (update _ _ _ _ _ _) as [f|] eqn:Hup; [|done].
  injection Htick as <-.
  destruct (update_playing _ _ _ _ _ _ _ Hst Hup)
    as (w1 & w2 & f3 & f4 & P1 & P2 & P3 & P4 & Hf & _).
  pose proof (playerPhase_map _ _ _ _ _ P1) as M1.
  pose proof (playerPhase_enemies _ _ _ _ _ P1) as E1.
  pose proof (bombPhase_grid _ _ _ _ _ _ ltac:(by rewrite M1) P2) as G2.
  pose proof (bombPhase_refs _ _ _ _ _ _ P2) as (E2 & _).
  pose proof (explosionPhase_view _ _ _ _ P3) as V3.
  assert (mapRef (fst f3) = mapRef w2) as M3.
  { unfold hitView in V3. simpl in V3. congruence. }
  unfold enemiesFree, commit. simpl. rewrite Hf.
  assert (wf_grid (mapRef (fst f3))) as Hwf3
    by (rewrite M3; by destruct G2).
  apply (enemyPhase_free v fp rnd f3 f4 Hwf3); [|exact P4].
  apply Forall_forall. intros e He.
  apply (explosionPhase_enemies _ _ _ _ _ P3) in He. simpl in He.
  rewrite E2, E1 in He. rewrite M3.
  eapply rectFree_ages; [|exact G2]. rewrite M1.
  unfold enemiesFree in Hfree. rewrite Forall_forall in Hfree. by apply Hfree.
Qed.

Lemma reachable_enemiesFree v fp (w : World) :
  reachable v fp w ->
  (gameStatus w <> Menu -> wf_grid (mapRef w)) /\ enemiesFree w.
Proof.
  induction 1 as [|w i _ IH|w fuel rnd w' _ _ _ Hinit
                  |w dt now rnd w' Hr IH _ Htick].
  - split; [done|constructor].
  - done.
  - pose proof (initGame_spawnedOn v fuel rnd w w' Hinit)
      as Hall.
    apply initGame_map in Hinit as (Hm & _).
    assert (wf_grid (mapRef w')) as Hwf by (rewrite Hm; apply newMap_wf).
    split; [done|]. unfold enemiesFree.
    eapply Forall_impl; [exact Hall|]. intros e. by apply spawnedOn_free.
  - destruct IH as [Hwf Hfree].
    destruct (decide (gameStatus w = Playing)) as [Hst | Hst];
      [|rewrite tick_not_playing in Htick by done; by injection Htick as <-].
    assert (wf_grid (mapRef w)) as Hwf' by (apply Hwf; congruence).
    split.
    + intros _. by destruct (tick_grid _ _ _ _ _ _ _ Hwf' Htick).
    + by eapply tick_enemiesFree.
Qed.

(** X16. No enemy is ever inside a wall or off the grid: in every
    reachable state every cell covered by an enemy's hitbox is inside the
    grid and Empty. *)
Theorem X16_enemies_stay_on_empty_cells v fp (w : World) :
  reachable v fp w ->
  Forall (fun e =>
            forall r c, covers (enemyRect e) r c ->
                        inGrid r c /\ mapAt (mapRef w) r c = Some Empty)
         (enemiesRef w).
Proof. intros Hr. by destruct (reachable_enemiesFree v fp w Hr). Qed.

(** ** A bomb as it is laid, and the player at the start of a round *)

Lemma tile_overlaps_hitbox (x y w h : Q) (c r : Z) :
  (0 < w)%Q -> (0 < h)%Q ->
  getGridPos x y = GridPos.mk c r ->
  rectIntersect
    (entityRect x y w h)
    (Rect.mk (inject_Z c * TILE_SIZE + TILE_SIZE / 2 - TILE_SIZE / 2)
             (inject_Z r * TILE_SIZE + TILE_SIZE / 2 - TILE_SIZE / 2)
             TILE_SIZE TILE_SIZE) = true.
Proof.
  intros Hw Hh [= Hc Hr]. apply Qfloor_tile in Hc, Hr.
  apply rectIntersect_true. unfold entityRect. cbn [Rect.x Rect.y Rect.w Rect.h].
  unfold TILE_SIZE, Qdiv in *. change (/ 2)%Q with (1 # 2)%Q.
  split_and!; lra.
Qed.

(** X17. When the player has a bomb to spare and its tile holds none,
    [placeBomb] appends one bomb and counts it.  The bomb is stamped
    [now], has the full timer, the player's blast radius as range and the
    player as owner, and sits at the center of the player's tile, so its
    cell is the player's.  Its square overlaps the player's hitbox: the
    standing-on exemption of the collision check covers it at once. *)
Theorem X17_placed_bomb (now : Z) (w : World) :
  let p := playerRef w in
  let g := getGridPos (Player.x p) (Player.y p) in
  Player.bombCount p < Player.maxBombs p ->
  g ∉ (bombCell <$> bombsRef w) ->
  (0 < Player.width p)%Q -> (0 < Player.height p)%Q ->
  exists b : Bomb.t,
    placeBomb now w =
      set_player (set_bombs w (bombsRef w ++ [b]))
                 (Player.set_bombCount p (Player.bombCount p + 1)) /\
    Bomb.id b = now /\
    Bomb.timer b = BOMB_TIMER_MS /\
    Bomb.range b = Player.blastRadius p /\
    Bomb.ownerId b = playerName /\
    Bomb.x b = (inject_Z (GridPos.c g) * TILE_SIZE + TILE_SIZE / 2)%Q /\
    Bomb.y b = (inject_Z (GridPos.r g) * TILE_SIZE + TILE_SIZE / 2)%Q /\
    bombCell b = g /\
    rectIntersect (playerRect p) (bombRect b) = true.
Proof.
  intros p g Hcount Hcell Hw Hh. unfold placeBomb. fold p g.
  replace (Player.maxBombs p <=? Player.bombCount p) with false by lia.
  assert (existsb (fun b => sameCell (bombCell b) g) (bombsRef w) = false)
    as ->.
  { destruct (existsb _ _) eqn:E; [|done]. exfalso. apply Hcell.
    apply existsb_exists in E as (b0 & Hin & Hsame).
    apply sameCell_eq in Hsame as <-.
    apply list_elem_of_fmap_2. by apply list_elem_of_In. }
  eexists. split; [reflexivity|]. cbn [Bomb.id Bomb.timer Bomb.range
    Bomb.ownerId Bomb.x Bomb.y]. split_and!; try done.
  - unfold bombCell, getGridPos. cbn [Bomb.x Bomb.y].
    rewrite !Qfloor_tile_center. by destruct g.
  - unfold playerRect, bombRect. cbn [Bomb.x Bomb.y].
    by apply tile_overlaps_hitbox.
Qed.

Lemma spawnPlayer_covers v (r c : Z) :
  covers (playerRect (spawnPlayer v)) r c -> r = 1 /\ c = 1.
Proof.
  unfold covers.
  change (cellTop (playerRect (spawnPlayer v))) with 1.
  change (cellBottom (playerRect (spawnPlayer v))) with 1.
  change (cellLeft (playerRect (spawnPlayer v))) with 1.
  change (cellRight (playerRect (spawnPlayer v))) with 1.
  lia.
Qed.

(** X18. A round starts with the player alive on tile (1, 1), which is
    Empty; its hitbox covers no other tile, so the player starts clear of
    every wall.  There is no bomb and no explosion, the counters are at
    their start values, and the round is [Playing]. *)
Theorem X18_player_spawns_clear v (fuel : nat) (rnd : nat -> Q)
    (w w' : World) :
  initGame v fuel rnd w = Some w' ->
  let p := playerRef w' in
  gameStatus w' = Playing /\
  bombsRef w' = [] /\ explosionsRef w' = [] /\
  Player.alive p = true /\
  Player.bombCount p = 0 /\ Player.maxBombs p = 3 /\
  Player.blastRadius p = 2 /\
  getGridPos (Player.x p) (Player.y p) = GridPos.mk 1 1 /\
  mapAt (mapRef w') 1 1 = Some Empty /\
  (forall r c, covers (playerRect p) r c -> r = 1 /\ c = 1).
Proof.
  intros Hinit.
  apply initGame_map in Hinit as (Hm & Hs & Hb & He & Hp & _).
  cbn zeta. rewrite Hp, Hm. split_and!; try done.
  - apply (skel_safe _ _ (newMap_Skeleton v rnd)); [by vm_compute|].
    by destruct v.
  - apply spawnPlayer_covers.
Qed.

(** ** The enemies over a round *)

Lemma pickDir_dirs (u : Q) (d : Point.t) :
  pickDir u = Some d -> d ∈ enemyDirs.
Proof.
  unfold pickDir. destruct (_ <? 0); [done|].
  apply list_elem_of_lookup_2.
Qed.

Lemma enemyStep_ok v fp rnd (m : Grid) (bs : list Bomb.t)
    (e : Enemy.t) (s s' : EnemyLoop) :
  enemyOk e ->
  enemyStep v fp rnd m bs e s = Some s' ->
  exists e', stepped s' = stepped s ++ [e'] /\ enemyOk e'.
Proof.
  intros (Hd & Hs & Hw & Hh). unfold enemyStep. intros H.
  destruct (Qltb (fhypot _ _ _) _);
    simplify_option_eq; repeat (case_match; simplify_option_eq);
    eexists; (split; [reflexivity|]); unfold enemyOk; simpl;
    split_and!; try done;
    by eapply pickDir_dirs.
Qed.

Lemma enemyPhase_ok v fp rnd (f f' : Frame) :
  Forall enemyOk (enemiesRef (fst f)) ->
  enemyPhase v fp rnd f = Some f' ->
  Forall enemyOk (enemiesRef (fst f')).
Proof.
  destruct f as [w calls]. cbn [fst]. intros Hall. unfold enemyPhase.
  destruct (forEach _ _ _) as [s|] eqn:E; [|done].
  intros [= <-]. cbn [fst enemiesRef set_enemies set_player].
  revert E.
  apply (forEach_elements (fun s => Forall enemyOk (stepped s)));
    [|constructor].
  intros e s1 s2 He Hs Hstep.
  rewrite Forall_forall in Hall.
  apply (enemyStep_ok _ _ _ _ _ _ _ _ (Hall e He)) in Hstep
    as (e' & -> & Hok).
  apply Forall_app. split; [done|]. by constructor.
Qed.

Lemma tick_enemyOk v fp (dt : Q) (now : Z) (rnd : nat -> Q)
    (w w' : World) :
  Forall enemyOk (enemiesRef w) ->
  tick v fp dt now rnd w = Some w' ->
  Forall enemyOk (enemiesRef w').
Proof.
  intros Hall Htick.
  destruct (decide (gameStatus w = Playing)) as [Hst | Hst];
    [|rewrite tick_not_playing in Htick by done; by injection Htick as <-].
  unfold tick in Htick.
  destruct (update _ _ _ _ _ _) as [f|] eqn:Hup; [|done].
  injection Htick as <-.
  destruct (update_playing _ _ _ _ _ _ _ Hst Hup)
    as (w1 & w2 & f3 & f4 & P1 & P2 & P3 & P4 & Hf & _).
  pose proof (playerPhase_enemies _ _ _ _ _ P1) as E1.
  pose proof (bombPhase_refs _ _ _ _ _ _ P2) as (E2 & _).
  unfold commit. simpl. rewrite Hf.
  apply (enemyPhase_ok v fp rnd f3 f4); [|exact P4].
  apply Forall_forall. intros e He.
  apply (explosionPhase_enemies _ _ _ _ _ P3) in He. simpl in He.
  rewrite E2, E1 in He. rewrite Forall_forall in Hall. by apply Hall.
Qed.

Lemma reachable_enemyOk v fp (w : World) :
  reachable v fp w -> Forall enemyOk (enemiesRef w).
Proof.
  induction 1 as [|w i _ IH|w fuel rnd w' _ _ _ Hinit
                  |w dt now rnd w' _ IH _ Htick].
  - constructor.
  - done.
  - apply initGame_spawnedOn in Hinit.
    eapply Forall_impl; [exact Hinit|].
    intros e (r & c & ident & -> & _). unfold enemyOk, enemyDirs. simpl.
    split_and!; try done. rewrite !elem_of_cons. auto.
  - by eapply tick_enemyOk.
Qed.

(** X19. In every reachable state each enemy heads along an axis (its
    direction is one of up, down, left and right, with unit length), moves
    at 2 px per frame and has the 30 x 30 hitbox. *)
Theorem X19_enemies_walk_the_axes v fp (w : World) :
  reachable v fp w ->
  Forall (fun e =>
            Enemy.direction e ∈
              [Point.mk 0 (-1); Point.mk 0 1; Point.mk (-1) 0; Point.mk 1 0]
            /\ Enemy.speed e = 2%Q
            /\ Enemy.width e = 30%Q /\ Enemy.height e = 30%Q)
         (enemiesRef w).
Proof. apply reachable_enemyOk. Qed.

(** ** The further properties at concrete inputs *)

Lemma X3_witness :
  wf_grid openArena /\
  exists hit : bool,
    isCollision openArena [spawnBomb] 120 72 30 30 72 72 = Some hit.
Proof.
  split; [exact openArena_grid|].
  destruct (X3_isCollision_exact openArena [spawnBomb] 120 72 30 30 72 72
              openArena_grid) as (hit & H & _).
  exists hit. exact H.
Defined.

Lemma arenaWorld_start :
  initGame RevA 10 half (mountWorld RevA) = Some arenaWorld.
Proof. by vm_compute. Qed.

Lemma X4_witness :
  initGame RevA 10 half (mountWorld RevA) = Some arenaWorld /\
  length (enemiesRef arenaWorld) = 4%nat.
Proof.
  split; [exact arenaWorld_start|].
  exact (proj2 (proj2 (X4_enemies_spawn_on_empty_tiles
                         RevA 10 half (mountWorld RevA) arenaWorld
                         arenaWorld_start)) eq_refl).
Defined.

Lemma X5_witness :
  unitSamples half /\ (100 <= 100)%nat /\
  exists w', initGame RevB 100 half (mountWorld RevB) = Some w'.
Proof.
  split; [exact half_unitSamples|]. split; [exact (le_n 100)|].
  exact (X5_capped_spawn_returns 100 half (mountWorld RevB)
           half_unitSamples (le_n 100)).
Defined.

Lemma bombWorld_frame :
  tick RevA exactOps 16 0 half (set_inputs arenaWorld spaceKey)
  = Some bombWorld.
Proof. by vm_compute. Qed.

Lemma X7_witness :
  wf_grid (mapRef (set_inputs arenaWorld spaceKey)) /\
  tick RevA exactOps 16 0 half (set_inputs arenaWorld spaceKey)
  = Some bombWorld /\
  wf_grid (mapRef bombWorld).
Proof.
  split; [exact arenaWorld_grid|]. split; [exact bombWorld_frame|].
  exact (proj1 (X7_frame_only_clears_soft_walls
                  RevA exactOps 16 0 half
                  (set_inputs arenaWorld spaceKey) bombWorld
                  arenaWorld_grid bombWorld_frame)).
Defined.

Lemma bombWorld_playing : gameStatus bombWorld = Playing.
Proof. by vm_compute. Qed.

Lemma bombWorld_past_menu : gameStatus bombWorld <> Menu.
Proof. rewrite bombWorld_playing. discriminate. Qed.

Lemma X8_witness :
  reachable RevA exactOps bombWorld /\
  gameStatus bombWorld <> Menu /\
  mapAt (mapRef bombWorld) 0 0 = Some HardWall /\
  mapAt (mapRef bombWorld) 1 1 = Some Empty.
Proof.
  split; [exact bombWorld_reachable|]. split; [exact bombWorld_past_menu|].
  destruct (X8_maze_skeleton_is_permanent RevA exactOps bombWorld
              bombWorld_reachable bombWorld_past_menu)
    as (_ & Hhard & H11 & _).
  split; [|exact H11].
  apply Hhard; [unfold inGrid, GRID_ROWS, GRID_COLS; lia|]. by left.
Defined.

Lemma X9_witness :
  wf_grid (mapRef bombWorld) /\
  exists w2 : World,
    bombPhase RevA exactOps 16 0 bombWorld = Some w2 /\
    bombsRef w2
      = List.filter bombLive (ageBomb exactOps 16 <$> bombsRef bombWorld).
Proof.
  split; [exact bombWorld_grid|].
  destruct (X9_bomb_loop_exact RevA exactOps 16 0 bombWorld bombWorld_grid)
    as (w2 & new & Hrun & Hbs & _).
  exists w2. split; [exact Hrun|exact Hbs].
Defined.

Lemma spaceWorld_playing :
  gameStatus (set_inputs arenaWorld spaceKey) = Playing.
Proof. by vm_compute. Qed.

Lemma X11_witness :
  gameStatus (set_inputs arenaWorld spaceKey) = Playing /\
  tick RevA exactOps 16 0 half (set_inputs arenaWorld spaceKey)
  = Some bombWorld /\
  inputsRef bombWorld = Inputs.clear_Space spaceKey.
Proof.
  split; [exact spaceWorld_playing|]. split; [exact bombWorld_frame|].
  exact (proj1 (X11_space_is_consumed RevA exactOps 16 0 half
                  (set_inputs arenaWorld spaceKey) bombWorld
                  spaceWorld_playing bombWorld_frame)).
Defined.

Lemma spaceWorld_alive :
  Player.alive (playerRef (set_inputs arenaWorld spaceKey)) = true.
Proof. by vm_compute. Qed.

Lemma X12_witness :
  gameStatus (set_inputs arenaWorld spaceKey) = Playing /\
  Player.alive (playerRef (set_inputs arenaWorld spaceKey)) = true /\
  tick RevA exactOps 16 0 half (set_inputs arenaWorld spaceKey)
  = Some bombWorld /\
  gameStatus bombWorld =
    if Nat.eqb (length (enemiesRef bombWorld)) 0 then Won
    else if Player.alive (playerRef bombWorld) then Playing
    else Lost.
Proof.
  split; [exact spaceWorld_playing|]. split; [exact spaceWorld_alive|].
  split; [exact bombWorld_frame|].
  exact (X12_status_after_a_frame RevA exactOps 16 0 half
           (set_inputs arenaWorld spaceKey) bombWorld
           spaceWorld_playing spaceWorld_alive bombWorld_frame).
Defined.

Lemma X13_witness :
  reachable RevA exactOps bombWorld /\
  Player.alive (playerRef bombWorld) = true.
Proof.
  split; [exact bombWorld_reachable|].
  exact (proj1 (X13_status_matches_entities RevA exactOps bombWorld
                  bombWorld_reachable) bombWorld_playing).
Defined.

Lemma X15_witness :
  wf_grid (mapRef arenaWorld) /\
  unitSamples half /\
  exists f' : Frame,
    enemyPhase RevA exactOps half (arenaWorld, []) = Some f' /\
    length (enemiesRef (fst f')) = length (enemiesRef arenaWorld).
Proof.
  split; [exact arenaWorld_grid|]. split; [exact half_unitSamples|].
  destruct (X15_enemy_loop_contact RevA exactOps half arenaWorld []
              arenaWorld_grid half_unitSamples) as (f' & Hrun & Hall & _).
  exists f'. split; [exact Hrun|].
  symmetry. exact (Forall2_length _ _ _ Hall).
Defined.

Lemma X16_witness :
  reachable RevA exactOps bombWorld /\
  Forall (fun e =>
            forall r c, covers (enemyRect e) r c ->
                        inGrid r c /\
                        mapAt (mapRef bombWorld) r c = Some Empty)
         (enemiesRef bombWorld).
Proof.
  split; [exact bombWorld_reachable|].
  exact (X16_enemies_stay_on_empty_cells RevA exactOps bombWorld
           bombWorld_reachable).
Defined.

Lemma X17_witness :
  Player.bombCount (playerRef arenaWorld)
  < Player.maxBombs (playerRef arenaWorld) /\
  (0 < Player.width (playerRef arenaWorld))%Q /\
  (0 < Player.height (playerRef arenaWorld))%Q /\
  exists b : Bomb.t,
    bombsRef (placeBomb 0 arenaWorld) = [b] /\
    bombCell b = GridPos.mk 1 1 /\
    rectIntersect (playerRect (playerRef arenaWorld)) (bombRect b) = true.
Proof.
  assert (Player.bombCount (playerRef arenaWorld)
          < Player.maxBombs (playerRef arenaWorld)) as Hc by (by vm_compute).
  assert (0 < Player.width (playerRef arenaWorld))%Q as Hw
    by (by vm_compute).
  assert (0 < Player.height (playerRef arenaWorld))%Q as Hh
    by (by vm_compute).
  assert (getGridPos (Player.x (playerRef arenaWorld))
                     (Player.y (playerRef arenaWorld))
          ∉ (bombCell <$> bombsRef arenaWorld)) as Hn.
  { change (bombsRef arenaWorld) with (@nil Bomb.t). apply not_elem_of_nil. }
  split; [exact Hc|]. split; [exact Hw|]. split; [exact Hh|].
  destruct (X17_placed_bomb 0 arenaWorld Hc Hn Hw Hh)
    as (b & Hrun & _ & _ & _ & _ & _ & _ & Hcell & Hover).
  exists b. split; [by rewrite Hrun|]. split; [exact Hcell|exact Hover].
Defined.

Lemma X18_witness :
  initGame RevA 10 half (mountWorld RevA) = Some arenaWorld /\
  getGridPos (Player.x (playerRef arenaWorld))
             (Player.y (playerRef arenaWorld)) = GridPos.mk 1 1 /\
  mapAt (mapRef arenaWorld) 1 1 = Some Empty.
Proof.
  split; [exact arenaWorld_start|].
  destruct (X18_player_spawns_clear RevA 10 half (mountWorld RevA)
              arenaWorld arenaWorld_start)
    as (_ & _ & _ & _ & _ & _ & _ & Hcell & Hempty & _).
  split; [exact Hcell|exact Hempty].
Defined.

Lemma X19_witness :
  reachable RevA exactOps bombWorld /\
  Forall (fun e => Enemy.speed e = 2%Q) (enemiesRef bombWorld).
Proof.
  split; [exact bombWorld_reachable|].
  eapply Forall_impl;
    [exact (X19_enemies_walk_the_axes RevA exactOps bombWorld
              bombWorld_reachable)|].
  intros e (_ & Hs & _). exact Hs.
Defined.
